(** * LinguaLens: label layout, offset store and export compositor

    A shallow embedding of the state handlers of [App.tsx]
    ([handleImageSelect], [handleReset], [handleOffsetChange],
    [handleTextChange], [getMimeType], [processTranslation],
    [processEdit], [handleDownload]) and of the reply handling of
    [services/geminiService.ts], together with the properties the
    specification states about them and further properties read off
    the code.

    Modelling conventions.
    - A JavaScript [number] is an exact rational ([Q]); equality of
      computed coordinates is [Qeq] ([==]).  The rounding of binary64
      arithmetic is outside this model; the worked examples of the
      specification are evaluated in binary64 as well ([Binary64]).
    - A JavaScript string is its sequence of UTF-16 code units.
    - The array [imageState.annotations] is a list of slots, so that an
      index write past the end (which extends a JavaScript array) and
      the holes it leaves can be written down.
    - The object [labelOffsets] is a finite map from indices to offsets.
    - React state setters are operations of a small state monad. *)

From Stdlib Require Import QArith Qminmax Lqa Lia PrimFloat.
From stdpp Require Import gmap list strings.

Local Open Scope Q_scope.

(** ** Strings *)

Module JsString.

(** UTF-16 code units. *)
Definition t := list N.

(** Text given as ASCII, for examples. *)
Definition of_ascii (s : string) : t :=
  map Ascii.N_of_ascii (String.list_ascii_of_string s).

(** WhiteSpace and LineTerminator code points of ECMAScript, the ones
    [String.prototype.trim] strips. *)
Definition isWhiteSpace (c : N) : bool :=
  ((9 <=? c) && (c <=? 13))%N
  || (c =? 32)%N || (c =? 160)%N || (c =? 5760)%N
  || ((8192 <=? c) && (c <=? 8202))%N
  || (c =? 8232)%N || (c =? 8233)%N || (c =? 8239)%N
  || (c =? 8287)%N || (c =? 12288)%N || (c =? 65279)%N.

Fixpoint trimStart (s : t) : t :=
  match s with
  | c :: s' => if isWhiteSpace c then trimStart s' else s
  | [] => []
  end.

Definition trimEnd (s : t) : t := rev (trimStart (rev s)).

Definition trim (s : t) : t := trimEnd (trimStart s).

End JsString.

(** ** Data model *)

(** Modelled from the spec: the tuple type of [Annotation.box_2d], declared
    in [types.ts]; [[ymin, xmin, ymax, xmax]] on the 0-1000 scale. *)
Definition Box : Type := Q * Q * Q * Q.

Module Annotation.
(** Modelled from the spec: the interface [Annotation] of [types.ts],
    [{ original, translation, box_2d }]. *)
Record t : Type := mk
  { original : JsString.t;
    translation : JsString.t;
    box_2d : Box }.

(** [{ ...ann, translation: newText }] *)
Definition withTranslation (ann : t) (newText : JsString.t) : t :=
  {| original := original ann;
     translation := newText;
     box_2d := box_2d ann |}.

End Annotation.

Module Offset.
(** The value type of [labelOffsets]: [{x: number, y: number}]. *)
Record t : Type := mk { x : Q; y : Q }.
End Offset.

Module Point.
Record t : Type := mk { x : Q; y : Q }.
End Point.

Module Rect.
Record t : Type := mk { x : Q; y : Q; w : Q; h : Q }.
End Rect.

(** What one element position of the annotations array can hold.  Only
    [Item] is a well-typed [Annotation]; the other three arise when
    [handleTextChange] writes past the end of the array. *)
Inductive Slot : Type :=
| Item (ann : Annotation.t)
| TranslationOnly (text : JsString.t)   (* the object [{ translation }] *)
| Undefined                             (* an element holding [undefined] *)
| Hole.                                 (* an empty slot of a sparse array *)

(** [arr[j]]: holes and indices past the end read as [undefined]. *)
Definition read (arr : list Slot) (j : nat) : Slot :=
  match arr !! j with
  | Some Hole | None => Undefined
  | Some s => s
  end.

Definition translationOf (s : Slot) : option JsString.t :=
  match s with
  | Item ann => Some (Annotation.translation ann)
  | TranslationOnly text => Some text
  | Undefined | Hole => None
  end.

Definition originalOf (s : Slot) : option JsString.t :=
  match s with
  | Item ann => Some (Annotation.original ann)
  | _ => None
  end.

Definition box_2dOf (s : Slot) : option Box :=
  match s with
  | Item ann => Some (Annotation.box_2d ann)
  | _ => None
  end.

(** Modelled from the spec: the enum [AppMode] of [types.ts]. *)
Inductive AppMode : Type := TRANSLATE | EDIT.

Module ImageState.
(** Modelled from the spec: the interface [ImageState] of [types.ts]. *)
Record t : Type := mk
  { original : option string;
    processed : option string;
    annotations : list Slot;
    width : Q;
    height : Q }.

(** [{ ...prev, annotations: a }] *)
Definition withAnnotations (prev : t) (a : list Slot) : t :=
  {| original := original prev;
     processed := processed prev;
     annotations := a;
     width := width prev;
     height := height prev |}.

End ImageState.

(** The [useState] cells of the [App] component. *)
Record AppState : Type := mkAppState
  { mode : AppMode;
    loading : bool;
    error : option string;
    imageState : ImageState.t;
    labelOffsets : gmap nat Offset.t;
    editPrompt : JsString.t }.

(** ** Handlers as state transformers

    An event handler reads the component state and calls setters; it is
    a computation in the state monad over [AppState]. *)

Definition Handler (A : Type) : Type := AppState -> A * AppState.

#[export] Instance Handler_ret : MRet Handler :=
  fun A a s => (a, s).

#[export] Instance Handler_bind : MBind Handler :=
  fun A B k m s => let '(a, s') := m s in k a s'.

Definition getState : Handler AppState := fun s => (s, s).

Definition exec {A : Type} (m : Handler A) (s : AppState) : AppState :=
  snd (m s).

Definition result {A : Type} (m : Handler A) (s : AppState) : A :=
  fst (m s).

Definition setLoading (b : bool) : Handler unit := fun s =>
  (tt, {| mode := mode s; loading := b; error := error s;
          imageState := imageState s; labelOffsets := labelOffsets s;
          editPrompt := editPrompt s |}).

Definition setError (e : option string) : Handler unit := fun s =>
  (tt, {| mode := mode s; loading := loading s; error := e;
          imageState := imageState s; labelOffsets := labelOffsets s;
          editPrompt := editPrompt s |}).

(** [setImageState(prev => f prev)] *)
Definition setImageState (f : ImageState.t -> ImageState.t) : Handler unit :=
  fun s =>
  (tt, {| mode := mode s; loading := loading s; error := error s;
          imageState := f (imageState s); labelOffsets := labelOffsets s;
          editPrompt := editPrompt s |}).

(** [setLabelOffsets(prev => f prev)]; [setLabelOffsets({})] is the
    constant update. *)
Definition setLabelOffsets
    (f : gmap nat Offset.t -> gmap nat Offset.t) : Handler unit :=
  fun s =>
  (tt, {| mode := mode s; loading := loading s; error := error s;
          imageState := imageState s; labelOffsets := f (labelOffsets s);
          editPrompt := editPrompt s |}).

(** *** The offset store *)

(** [handleOffsetChange]: [setLabelOffsets(prev => ({...prev, [index]: offset}))] *)
Definition handleOffsetChange (index : nat) (offset : Offset.t) : Handler unit :=
  setLabelOffsets (fun prev => <[index := offset]> prev).

(** [labelOffsets[i] || { x: 0, y: 0 }]: a stored offset is an object,
    hence truthy; an absent key reads [undefined]. *)
Definition getOffset (offsets : gmap nat Offset.t) (i : nat) : Offset.t :=
  match offsets !! i with
  | Some offset => offset
  | None => Offset.mk 0 0
  end.

(** *** Editing a label's text *)

(** [{ ...slot, translation: newText }]; spreading [undefined] adds no
    property. *)
Definition spreadWithTranslation (s : Slot) (newText : JsString.t) : Slot :=
  match s with
  | Item ann => Item (Annotation.withTranslation ann newText)
  | TranslationOnly _ | Undefined | Hole => TranslationOnly newText
  end.

(** [[...arr]]: array spread reads every index below [length], so a hole
    is copied as [undefined]. *)
Definition spreadArray (arr : list Slot) : list Slot :=
  (fun s => match s with Hole => Undefined | _ => s end) <$> arr.

(** [arr[index] = v]: inside the array the element is replaced; at or
    past the end the array grows to [index + 1] elements and the
    positions in between are holes. *)
Definition assignIndex (arr : list Slot) (index : nat) (v : Slot) : list Slot :=
  if decide (index < length arr)%nat
  then <[index := v]> arr
  else arr ++ replicate (index - length arr) Hole ++ [v].

(** [handleTextChange] *)
Definition handleTextChange (index : nat) (newText : JsString.t) : Handler unit :=
  setImageState (fun prev =>
    let newAnnotations := spreadArray (ImageState.annotations prev) in
    let newAnnotations :=
      assignIndex newAnnotations index
        (spreadWithTranslation (read newAnnotations index) newText) in
    ImageState.withAnnotations prev newAnnotations).

(** *** Detection *)

(** The outcome of [await translateImageText(rawBase64, mimeType)]: the
    promise is rejected, or it resolves to the parsed list. *)
Inductive Detection : Type :=
| Throws
| Returns (results : list Annotation.t).

(** A string condition [!s]: [null] and the empty string are falsy. *)
Definition truthy (o : option string) : option string :=
  match o with
  | Some s => if decide (s = "") then None else Some s
  | None => None
  end.

(** [processTranslation], given the outcome of the detection call it
    awaits. *)
Definition processTranslation (detection : Detection) : Handler unit :=
  s ← getState;
  match truthy (ImageState.original (imageState s)) with
  | None => mret tt
  | Some _ =>
      setLoading true;;
      setError None;;
      setLabelOffsets (fun _ => ∅);;   (* Reset offsets on new translation *)
      match detection with
      | Returns results =>
          setImageState (fun prev =>
            ImageState.withAnnotations prev (Item <$> results));;
          if decide (length results = 0%nat)
          then setError (Some "No English text detected to translate.")
          else mret tt
      | Throws =>
          setError (Some "Failed to process translation. Please try again.")
      end;;
      setLoading false
  end.

(** ** Geometry of the export compositor

    The body of the [forEach] callback of [handleDownload], cut at the
    places the specification names: pixel rectangle, label size, default
    label origin, user offset. *)

Definition Qltb (a b : Q) : bool := if Qlt_le_dec a b then true else false.

(** Lines 151-157: convert 1000-scale coordinates to pixel coordinates. *)
Definition toPixelRect (box_2d : Box) (canvasWidth canvasHeight : Q) : Rect.t :=
  let '(ymin, xmin, ymax, xmax) := box_2d in
  let x := (xmin / 1000) * canvasWidth in
  let y := (ymin / 1000) * canvasHeight in
  let w := ((xmax - xmin) / 1000) * canvasWidth in
  let h := ((ymax - ymin) / 1000) * canvasHeight in
  Rect.mk x y w h.

(** [Math.max(2, canvas.width * 0.003)] *)
Definition lineWidth (canvasWidth : Q) : Q :=
  Qmax 2 (canvasWidth * (3 # 1000)).

(** [Math.max(16, Math.min(canvas.width * 0.025, 32))] *)
Definition fontSize (canvasWidth : Q) : Q :=
  Qmax 16 (Qmin (canvasWidth * (25 # 1000)) 32).

(** [fontSize * 0.6] *)
Definition padding (canvasWidth : Q) : Q := fontSize canvasWidth * (6 # 10).

(** [fontSize + padding] *)
Definition boxHeight (canvasWidth : Q) : Q :=
  fontSize canvasWidth + padding canvasWidth.

(** [textWidth + (padding * 2) + 10]: room for the text, the padding on
    both sides and the grip icon. *)
Definition boxWidth (canvasWidth textWidth : Q) : Q :=
  textWidth + (padding canvasWidth * 2) + 10.

(** Lines 178-187: base position of the label, from the box's own
    normalized coordinates and the label's pixel size. *)
Definition defaultLabelOrigin
    (box_2d : Box) (rect : Rect.t) (labelWidth labelHeight : Q) : Point.t :=
  let '(ymin, xmin, ymax, xmax) := box_2d in
  let x := Rect.x rect in
  let y := Rect.y rect in
  let w := Rect.w rect in
  let h := Rect.h rect in
  let isNearBottom := Qltb 850 ymax in
  let centerX := x + (w / 2) in
  let labelX := centerX - (labelWidth / 2) in
  let labelY := if isNearBottom then y - labelHeight - 4 else y + h + 4 in
  (* Clamp horizontal (Base logic) *)
  let labelX :=
    if Qltb xmin 100 then x
    else if Qltb 900 xmax then (x + w) - labelWidth
    else labelX in
  Point.mk labelX labelY.

(** Lines 189-195: the stored 1000-scale offset, converted to canvas
    pixels, is added to the base position. *)
Definition pixelOffsetX (offset : Offset.t) (canvasWidth : Q) : Q :=
  (Offset.x offset / 1000) * canvasWidth.

Definition pixelOffsetY (offset : Offset.t) (canvasHeight : Q) : Q :=
  (Offset.y offset / 1000) * canvasHeight.

Definition applyOffset
    (origin : Point.t) (offset : Offset.t) (canvasWidth canvasHeight : Q)
    : Point.t :=
  Point.mk (Point.x origin + pixelOffsetX offset canvasWidth)
           (Point.y origin + pixelOffsetY offset canvasHeight).

(** [ann.original.trim() === ann.translation.trim()] *)
Definition isIdentical (ann : Annotation.t) : bool :=
  bool_decide (JsString.trim (Annotation.original ann)
               = JsString.trim (Annotation.translation ann)).

(** ** The canvas *)

Inductive Colour : Type :=
| AccentBlue    (* rgba(59, 130, 246, 0.7) *)
| DarkSlate     (* #0f172a *)
| White.        (* #ffffff *)

(** The calls made on the 2D context, with the context settings each one
    is drawn under. *)
Inductive DrawOp : Type :=
| StrokeRect (strokeStyle : Colour) (lineWidth : Q) (rect : Rect.t)
| FillRect (fillStyle : Colour) (rect : Rect.t)
| FillText (fillStyle : Colour) (fontPx : Q) (text : JsString.t) (at_ : Point.t).

Section Compositor.

(** [ctx.measureText(text).width] under the font
    [bold <fontPx>px sans-serif]; fixed by the rendering engine. *)
Variable measureText : Q -> JsString.t -> Q.

(** The canvas, sized to the loaded image. *)
Variables canvasWidth canvasHeight : Q.

(** The offsets the handler closes over. *)
Variable offsets : gmap nat Offset.t.

Definition labelWidthOf (ann : Annotation.t) : Q :=
  boxWidth canvasWidth
    (measureText (fontSize canvasWidth) (Annotation.translation ann)).

(** Where the label of annotation [i] is drawn. *)
Definition labelOrigin (ann : Annotation.t) (i : nat) : Point.t :=
  let rect := toPixelRect (Annotation.box_2d ann) canvasWidth canvasHeight in
  let base :=
    defaultLabelOrigin (Annotation.box_2d ann) rect
      (labelWidthOf ann) (boxHeight canvasWidth) in
  applyOffset base (getOffset offsets i) canvasWidth canvasHeight.

(** The callback of [imageState.annotations.forEach((ann, i) => ...)]. *)
Definition drawAnnotation (ann : Annotation.t) (i : nat) : list DrawOp :=
  (* Don't draw labels for identical text (numbers) *)
  if isIdentical ann then [] else
  let rect := toPixelRect (Annotation.box_2d ann) canvasWidth canvasHeight in
  let text := Annotation.translation ann in
  let label := labelOrigin ann i in
  let labelX := Point.x label in
  let labelY := Point.y label in
  [ StrokeRect AccentBlue (lineWidth canvasWidth) rect;
    FillRect DarkSlate
      (Rect.mk labelX labelY (labelWidthOf ann) (boxHeight canvasWidth));
    FillText White (fontSize canvasWidth) text
      (Point.mk (labelX + padding canvasWidth + 5)
                (labelY + (boxHeight canvasWidth / 2))) ].

(** What the loop leaves behind: it ran to the end, or a callback threw
    a [TypeError] after some calls had already been made. *)
Inductive Drawn : Type :=
| Completed (ops : list DrawOp)
| Threw (ops : list DrawOp).

Definition andThen (ops : list DrawOp) (rest : Drawn) : Drawn :=
  match rest with
  | Completed ops' => Completed (ops ++ ops')
  | Threw ops' => Threw (ops ++ ops')
  end.

(** [forEach] from index [i] on: an empty slot is not visited; reading
    [.original] of [undefined], or [.trim] of the missing [original]
    of [{ translation }], throws. *)
Fixpoint forEachFrom (i : nat) (arr : list Slot) : Drawn :=
  match arr with
  | [] => Completed []
  | Hole :: arr' => forEachFrom (S i) arr'
  | Item ann :: arr' => andThen (drawAnnotation ann i) (forEachFrom (S i) arr')
  | (Undefined | TranslationOnly _) :: _ => Threw []
  end.

Definition drawAnnotations (arr : list Slot) : Drawn := forEachFrom 0 arr.

End Compositor.

(** What the download link ends up pointing at. *)
Inductive Artifact : Type :=
| DataUrl (href : string)                          (* a stored image *)
| Composite (width height : Q) (ops : list DrawOp). (* the base image with [ops] drawn over it *)

Inductive Download : Type :=
| NotStarted                 (* the handler returned before [link.click()] *)
| Clicked (a : Artifact)
| Rejected (ops : list DrawOp).   (* the handler's promise was rejected *)

(** What [handleDownload] obtains from the browser: the natural size of
    the loaded image and whether a 2D context is available.  An image
    whose [onload] never fires is not represented. *)
Record Browser : Type := mkBrowser
  { measureText : Q -> JsString.t -> Q;
    naturalWidth : Q;
    naturalHeight : Q;
    has2dContext : bool }.

(** [handleDownload] *)
Definition handleDownload (env : Browser) : Handler Download :=
  s ← getState;
  match truthy (ImageState.original (imageState s)) with
  | None => mret NotStarted
  | Some original =>
      match mode s with
      | EDIT =>
          (* Studio Mode: Download processed image or original *)
          mret (Clicked (DataUrl
            (default original (truthy (ImageState.processed (imageState s))))))
      | TRANSLATE =>
          if has2dContext env then
            match drawAnnotations (measureText env)
                    (naturalWidth env) (naturalHeight env) (labelOffsets s)
                    (ImageState.annotations (imageState s)) with
            | Completed ops =>
                mret (Clicked (Composite (naturalWidth env) (naturalHeight env) ops))
            | Threw ops => mret (Rejected ops)
            end
          else mret NotStarted
      end
  end.

(** ** Binary64 arithmetic

    The two scalings of the compositor on IEEE 754 binary64 numbers, the
    arithmetic a JavaScript engine performs, for evaluating the worked
    examples of the specification without idealisation. *)

Module Binary64.

Definition toPixelRect
    (ymin xmin ymax xmax canvasWidth canvasHeight : PrimFloat.float)
    : PrimFloat.float * PrimFloat.float * PrimFloat.float * PrimFloat.float :=
  let x := ((xmin / 1000) * canvasWidth)%float in
  let y := ((ymin / 1000) * canvasHeight)%float in
  let w := (((xmax - xmin) / 1000) * canvasWidth)%float in
  let h := (((ymax - ymin) / 1000) * canvasHeight)%float in
  (x, y, w, h).

Definition pixelOffset (offset canvasSize : PrimFloat.float) : PrimFloat.float :=
  ((offset / 1000) * canvasSize)%float.

End Binary64.

(** ** Specification vocabulary *)

(** A box as the data model requires it: coordinates within the 0-1000
    scale, minimum before maximum on both axes. *)
Definition validBox (b : Box) : Prop :=
  let '(ymin, xmin, ymax, xmax) := b in
  (0 <= ymin /\ ymin <= ymax /\ ymax <= 1000)
  /\ (0 <= xmin /\ xmin <= xmax /\ xmax <= 1000).

(** Rectangles with the same coordinates as numbers. *)
Definition sameRect (r1 r2 : Rect.t) : Prop :=
  Rect.x r1 == Rect.x r2 /\ Rect.y r1 == Rect.y r2
  /\ Rect.w r1 == Rect.w r2 /\ Rect.h r1 == Rect.h r2.


(** The outlines among a sequence of canvas calls. *)
Definition strokedRects (ops : list DrawOp) : list Rect.t :=
  omap (fun op => match op with StrokeRect _ _ r => Some r | _ => None end) ops.

(** The filled label backgrounds among a sequence of canvas calls. *)
Definition filledRects (ops : list DrawOp) : list Rect.t :=
  omap (fun op => match op with FillRect _ r => Some r | _ => None end) ops.

(** The error-handling rule of the specification for one annotation: it
    is not drawn, or what is outlined is the rectangle of some valid
    box. *)
Definition clampsOrSkips
    (measure : Q -> JsString.t -> Q) (W H : Q)
    (offsets : gmap nat Offset.t) (ann : Annotation.t) (i : nat) : Prop :=
  let ops := drawAnnotation measure W H offsets ann i in
  ops = []
  \/ exists b, validBox b /\ Forall2 sameRect (strokedRects ops) [toPixelRect b W H].

(** The label background the export fills for annotation [i], if it
    draws one. *)
Definition drawnLabel
    (measure : Q -> JsString.t -> Q) (W H : Q)
    (offsets : gmap nat Offset.t) (ann : Annotation.t) (i : nat)
    : option Rect.t :=
  head (filledRects (drawAnnotation measure W H offsets ann i)).

(** The resolution-independence the specification words for a label:
    drawn at two resolutions, it has the same position relative to the
    canvas. *)
Definition sameRelativeLabelPosition
    (measure : Q -> JsString.t -> Q) (offsets : gmap nat Offset.t)
    (ann : Annotation.t) (i : nat) (W1 H1 W2 H2 : Q) : Prop :=
  match drawnLabel measure W1 H1 offsets ann i,
        drawnLabel measure W2 H2 offsets ann i with
  | Some r1, Some r2 =>
      Rect.x r1 / W1 == Rect.x r2 / W2 /\ Rect.y r1 / H1 == Rect.y r2 / H2
  | _, _ => True
  end.

(** The array [handleTextChange] stores. *)
Definition editedAnnotations
    (arr : list Slot) (index : nat) (newText : JsString.t) : list Slot :=
  assignIndex (spreadArray arr) index
    (spreadWithTranslation (read (spreadArray arr) index) newText).

(** ** Example data *)

Module Examples.

(** A metric for examples: every code unit is 0.6 em wide. *)
Definition measure (fontPx : Q) (text : JsString.t) : Q :=
  fontPx * (6 # 10) * inject_Z (Z.of_nat (length text)).

Definition browser : Browser :=
  {| measureText := measure;
     naturalWidth := 1000;
     naturalHeight := 1000;
     has2dContext := true |}.

(** "Hello" translated. *)
Definition hello : Annotation.t :=
  Annotation.mk (JsString.of_ascii "Hello") [20320; 22909]%N
    (100, 100, 200, 300).

(** A numeral, returned untranslated with stray blanks around it. *)
Definition year : Annotation.t :=
  Annotation.mk (JsString.of_ascii "2024") (JsString.of_ascii " 2024 ")
    (300, 400, 350, 500).

(** A translated segment whose box has [ymin > ymax]. *)
Definition inverted : Annotation.t :=
  Annotation.mk (JsString.of_ascii "Exit") [20986; 21475]%N
    (500, 100, 200, 300).

Definition state : AppState :=
  {| mode := TRANSLATE;
     loading := false;
     error := None;
     imageState :=
       ImageState.mk (Some "data:image/png;base64,iVBORw0KGgo=") None
         [Item hello; Item year] 0 0;
     labelOffsets := {[ 0%nat := Offset.mk 50 (-20) ]};
     editPrompt := [] |}.

End Examples.

(** ** The remaining handlers of [App] *)

Definition setEditPrompt (p : JsString.t) : Handler unit := fun s =>
  (tt, {| mode := mode s; loading := loading s; error := error s;
          imageState := imageState s; labelOffsets := labelOffsets s;
          editPrompt := p |}).

Definition setMode (m : AppMode) : Handler unit := fun s =>
  (tt, {| mode := m; loading := loading s; error := error s;
          imageState := imageState s; labelOffsets := labelOffsets s;
          editPrompt := editPrompt s |}).

(** [{ ...prev, processed: p }] *)
Definition withProcessed (prev : ImageState.t) (p : string) : ImageState.t :=
  {| ImageState.original := ImageState.original prev;
     ImageState.processed := Some p;
     ImageState.annotations := ImageState.annotations prev;
     ImageState.width := ImageState.width prev;
     ImageState.height := ImageState.height prev |}.

(** [handleImageSelect]: reset state on new image. *)
Definition handleImageSelect (base64 type : string) : Handler unit :=
  setImageState (fun _ =>
    ImageState.mk (Some ("data:" +:+ type +:+ ";base64," +:+ base64))
      None [] 0 0);;
  setLabelOffsets (fun _ => ∅);;
  setError None.

(** [handleReset] *)
Definition handleReset : Handler unit :=
  setImageState (fun _ => ImageState.mk None None [] 0 0);;
  setLabelOffsets (fun _ => ∅);;
  setEditPrompt [];;
  setError None.

(** The outcome of [await editImageWithPrompt(rawBase64, editPrompt, mimeType)]. *)
Inductive Edit : Type :=
| EditThrows
| EditReturns (newImageRaw : string).

(** [processEdit], given the outcome of the edit call it awaits. *)
Definition processEdit (edit : Edit) : Handler unit :=
  s ← getState;
  match truthy (ImageState.original (imageState s)),
        JsString.trim (editPrompt s) with
  | None, _ | _, [] => mret tt
  | Some _, _ :: _ =>
      setLoading true;;
      setError None;;
      match edit with
      | EditReturns newImageRaw =>
          setImageState (fun prev =>
            withProcessed prev ("data:image/jpeg;base64," +:+ newImageRaw))
      | EditThrows =>
          setError (Some
            "Failed to edit image. The model might not support this request.")
      end;;
      setLoading false
  end.

(** ** Data URLs

    [getMimeType] and the expression [imageState.original.split(',')[1]]
    of [processTranslation] and [processEdit], on code units. *)

Module DataUrl.

(** What [.] of a regular expression does not match. *)
Definition isLineTerminator (c : N) : bool :=
  (c =? 10)%N || (c =? 13)%N || (c =? 8232)%N || (c =? 8233)%N.

(** The text after the literal [lit], when [s] starts with it. *)
Fixpoint stripPrefix (lit s : JsString.t) : option JsString.t :=
  match lit, s with
  | [], _ => Some s
  | a :: lit', b :: s' => if (a =? b)%N then stripPrefix lit' s' else None
  | _ :: _, [] => None
  end.

(** A greedy captured dot-star followed by the literal [lit], matched at
    the start of [s]: the star first takes one more code unit and falls
    back to the literal when the rest cannot match.  The result is the
    capture. *)
Fixpoint dotStarThen (lit s : JsString.t) : option JsString.t :=
  match s with
  | [] => match stripPrefix lit [] with Some _ => Some [] | None => None end
  | c :: s' =>
      match (if isLineTerminator c then None else dotStarThen lit s') with
      | Some capture => Some (c :: capture)
      | None => match stripPrefix lit s with Some _ => Some [] | None => None end
      end
  end.

(** [getMimeType]: the regular expression is [data:] at the start, a
    captured greedy dot-star, then [;base64,]; the result is
    [match ? match[1] : 'image/jpeg']. *)
Definition getMimeType (dataUrl : JsString.t) : JsString.t :=
  match stripPrefix (JsString.of_ascii "data:") dataUrl with
  | Some rest =>
      match dotStarThen (JsString.of_ascii ";base64,") rest with
      | Some type => type
      | None => JsString.of_ascii "image/jpeg"
      end
  | None => JsString.of_ascii "image/jpeg"
  end.

(** [s.split(sep)] for a separator of one code unit. *)
Fixpoint split (sep : N) (s : JsString.t) : list JsString.t :=
  match s with
  | [] => [[]]
  | c :: s' =>
      if (c =? sep)%N then [] :: split sep s'
      else match split sep s' with
           | segment :: segments => (c :: segment) :: segments
           | [] => [[c]]
           end
  end.

(** [original.split(',')[1]] *)
Definition rawBase64 (original : JsString.t) : option JsString.t :=
  split 44 original !! 1%nat.

End DataUrl.

(** ** The Gemini service

    [translateImageText] and [editImageWithPrompt] of
    [services/geminiService.ts], from the response of
    [ai.models.generateContent] on. *)

Module GeminiService.

Record InlineData : Type := mkInlineData
  { mimeType : option string;
    data : option string }.

Record Part : Type := mkPart
  { inlineData : option InlineData;
    text : option string }.

(** The fields of a response the service reads: [response.text] and
    [response.candidates?.[0]?.content?.parts]. *)
Record Response : Type := mkResponse
  { responseText : option string;
    parts : option (list Part) }.

(** The outcome of [await ai.models.generateContent(...)]. *)
Inductive Generated : Type :=
| ApiThrows
| ApiReturns (response : Response).

(** [part.inlineData && part.inlineData.data] *)
Definition imageOf (part : Part) : option string :=
  match inlineData part with
  | Some inline => truthy (data inline)
  | None => None
  end.

(** The loop [for (const part of parts) { if (...) return ...; }]. *)
Fixpoint firstImage (ps : list Part) : option string :=
  match ps with
  | [] => None
  | part :: ps' =>
      match imageOf part with
      | Some image => Some image
      | None => firstImage ps'
      end
  end.

(** [editImageWithPrompt]: every throw inside [try] leaves as
    [Error("Failed to edit image.")]. *)
Definition editImageWithPrompt (generated : Generated) : Edit :=
  match generated with
  | ApiThrows => EditThrows
  | ApiReturns response =>
      match parts response with
      | Some ps =>
          match firstImage ps with
          | Some image => EditReturns image
          | None => EditThrows   (* No image data returned from the model. *)
          end
      | None => EditThrows
      end
  end.

(** [translateImageText]; [parse] is [JSON.parse(text) as Annotation[]],
    [None] when it throws. *)
Definition translateImageText
    (parse : string -> option (list Annotation.t)) (generated : Generated)
    : Detection :=
  match generated with
  | ApiThrows => Throws
  | ApiReturns response =>
      match truthy (responseText response) with
      | None => Returns []
      | Some text =>
          match parse text with
          | Some results => Returns results
          | None => Throws
          end
      end
  end.

End GeminiService.

(** ** Vocabulary for the further properties *)

(** The canvas calls a loop made, however it ended. *)
Definition opsOf (d : Drawn) : list DrawOp :=
  match d with Completed ops | Threw ops => ops end.

(** The annotations the compositor draws. *)
Definition visible (anns : list Annotation.t) : list Annotation.t :=
  filter (fun ann => isIdentical ann = false) anns.

(** Text drawn by a sequence of canvas calls, with its anchor. *)
Definition filledTexts (ops : list DrawOp) : list (JsString.t * Point.t) :=
  omap (fun op => match op with FillText _ _ t p => Some (t, p) | _ => None end) ops.

(** A state as the application can show it for export: an image is
    loaded, translate mode is on. *)
Definition exportable (s : AppState) : Prop :=
  is_Some (truthy (ImageState.original (imageState s))) /\ mode s = TRANSLATE.

(** ** Arithmetic helpers *)

(** Division by the constants of the source, as multiplication, so that
    linear arithmetic applies. *)
Ltac qconst :=
  unfold Qdiv in *;
  change (/ 1000) with (1 # 1000) in *;
  change (/ 2) with (1 # 2) in *.

Lemma Qltb_lt (a b : Q) : Qltb a b = true <-> a < b.
Proof.
  unfold Qltb. destruct (Qlt_le_dec a b) as [Hlt | Hle].
  - tauto.
  - split; [discriminate | intros Hab; lra].
Qed.

Lemma Qltb_ge (a b : Q) : Qltb a b = false <-> b <= a.
Proof.
  unfold Qltb. destruct (Qlt_le_dec a b) as [Hlt | Hle].
  - split; [discriminate | intros Hab; lra].
  - tauto.
Qed.

Lemma scale_nonneg (a W : Q) : 0 <= a -> 0 < W -> 0 <= (a / 1000) * W.
Proof.
  intros Ha HW. apply Qmult_le_0_compat; [qconst; lra | lra].
Qed.

Lemma scale_le_canvas (a W : Q) : a <= 1000 -> 0 < W -> (a / 1000) * W <= W.
Proof.
  intros Ha HW.
  assert (0 <= (1 - a / 1000) * W) as Hgap
    by (apply Qmult_le_0_compat; [qconst; lra | lra]).
  qconst. lra.
Qed.

Lemma scale_neg (a W : Q) : a < 0 -> 0 < W -> (a / 1000) * W < 0.
Proof.
  intros Ha HW.
  assert (0 < (- a / 1000) * W) as Hpos
    by (apply Qmult_lt_0_compat; [qconst; lra | lra]).
  qconst. lra.
Qed.

Lemma fontSize_ge_16 (W : Q) : 16 <= fontSize W.
Proof. unfold fontSize. apply Q.le_max_l. Qed.

Lemma fontSize_le_32 (W : Q) : fontSize W <= 32.
Proof.
  unfold fontSize. apply Q.max_lub; [lra | apply Q.le_min_r].
Qed.

Lemma boxHeight_pos (W : Q) : 0 < boxHeight W.
Proof.
  unfold boxHeight, padding. pose proof (fontSize_ge_16 W). lra.
Qed.

(** ** Pixel rectangles *)

(** C2. For every box [ymin, xmin, ymax, xmax] and canvas size [W] by [H]
    the rectangle computed for drawing is [x = xmin*W/1000],
    [y = ymin*H/1000], [w = (xmax-xmin)*W/1000], [h = (ymax-ymin)*H/1000];
    the box [100,100,200,300] on a 1000 by 1000 canvas gives
    [{x:100, y:100, w:200, h:100}], in binary64 arithmetic too; and this
    rectangle is the one the
    compositor outlines for every annotation it draws. *)
Theorem toPixelRect_scales :
  (forall ymin xmin ymax xmax W H : Q,
     let r := toPixelRect (ymin, xmin, ymax, xmax) W H in
     Rect.x r == xmin * W / 1000
     /\ Rect.y r == ymin * H / 1000
     /\ Rect.w r == (xmax - xmin) * W / 1000
     /\ Rect.h r == (ymax - ymin) * H / 1000)
  /\ sameRect (toPixelRect (100, 100, 200, 300) 1000 1000)
              (Rect.mk 100 100 200 100)
  /\ Binary64.toPixelRect 100 100 200 300 1000 1000
     = (100, 100, 200, 100)%float
  /\ (forall measure W H offsets ann i,
        strokedRects (drawAnnotation measure W H offsets ann i)
        = if isIdentical ann then []
          else [toPixelRect (Annotation.box_2d ann) W H]).
Proof.
  split; [| split; [| split]].
  - intros ymin xmin ymax xmax W H. cbn.
    repeat split; field.
  - unfold sameRect. cbn. repeat split; reflexivity.
  - reflexivity.
  - intros measure W H offsets ann i. unfold drawAnnotation.
    destruct (isIdentical ann); reflexivity.
Qed.

(** C6. For a valid box and a canvas of positive size the pixel rectangle
    has non-negative position and extent and lies within the canvas. *)
Theorem toPixelRect_within_canvas (b : Box) (W H : Q) :
  validBox b -> 0 < W -> 0 < H ->
  let r := toPixelRect b W H in
  0 <= Rect.x r /\ 0 <= Rect.y r /\ 0 <= Rect.w r /\ 0 <= Rect.h r
  /\ Rect.x r + Rect.w r <= W
  /\ Rect.y r + Rect.h r <= H.
Proof.
  destruct b as [[[ymin xmin] ymax] xmax].
  intros [[Hy0 [Hy Hy1]] [Hx0 [Hx Hx1]]] HW HH. cbn.
  pose proof (scale_nonneg xmin W Hx0 HW).
  pose proof (scale_nonneg ymin H Hy0 HH).
  assert (0 <= xmax - xmin) as Hdx by lra.
  assert (0 <= ymax - ymin) as Hdy by lra.
  pose proof (scale_nonneg _ W Hdx HW).
  pose proof (scale_nonneg _ H Hdy HH).
  pose proof (scale_le_canvas xmax W Hx1 HW) as Hr.
  pose proof (scale_le_canvas ymax H Hy1 HH) as Hb.
  repeat split; try assumption; qconst; lra.
Qed.

Lemma toPixelRect_within_canvas_witness :
  validBox (100, 100, 200, 300) /\ 0 < 1920 /\ 0 < 1080
  /\ let r := toPixelRect (100, 100, 200, 300) 1920 1080 in
     0 <= Rect.x r /\ 0 <= Rect.y r /\ 0 <= Rect.w r /\ 0 <= Rect.h r
     /\ Rect.x r + Rect.w r <= 1920
     /\ Rect.y r + Rect.h r <= 1080.
Proof.
  assert (validBox (100, 100, 200, 300)) as Hbox
    by (unfold validBox; repeat split; lra).
  assert (0 < 1920) as HW by lra.
  assert (0 < 1080) as HH by lra.
  repeat apply conj; try assumption;
    apply (toPixelRect_within_canvas (100, 100, 200, 300) 1920 1080 Hbox HW HH).
Defined.

(** ** User offsets *)

(** The pixel delta [applyOffset] adds to an origin is
    [(x*W/1000, y*H/1000)]; between two positive resolutions the deltas
    stand in the ratios [W2/W1] and [H2/H1]. *)
Lemma applyOffset_delta
    (origin1 origin2 : Point.t) (offset : Offset.t) (W1 H1 W2 H2 : Q) :
  0 < W1 -> 0 < H1 -> 0 < W2 -> 0 < H2 ->
  let dx1 := Point.x (applyOffset origin1 offset W1 H1) - Point.x origin1 in
  let dy1 := Point.y (applyOffset origin1 offset W1 H1) - Point.y origin1 in
  let dx2 := Point.x (applyOffset origin2 offset W2 H2) - Point.x origin2 in
  let dy2 := Point.y (applyOffset origin2 offset W2 H2) - Point.y origin2 in
  (dx1 == Offset.x offset * W1 / 1000 /\ dy1 == Offset.y offset * H1 / 1000)
  /\ (dx2 == Offset.x offset * W2 / 1000 /\ dy2 == Offset.y offset * H2 / 1000)
  /\ (dx2 == dx1 * (W2 / W1) /\ dy2 == dy1 * (H2 / H1))
  /\ (~ Offset.x offset == 0 -> dx2 / dx1 == W2 / W1)
  /\ (~ Offset.y offset == 0 -> dy2 / dy1 == H2 / H1)
  /\ (dx1 / W1 == dx2 / W2 /\ dy1 / H1 == dy2 / H2).
Proof.
  intros HW1 HH1 HW2 HH2.
  assert (~ W1 == 0) as HW1' by lra.
  assert (~ H1 == 0) as HH1' by lra.
  assert (~ W2 == 0) as HW2' by lra.
  assert (~ H2 == 0) as HH2' by lra.
  destruct origin1 as [x1 y1], origin2 as [x2 y2], offset as [ox oy].
  unfold applyOffset, pixelOffsetX, pixelOffsetY. cbn.
  repeat split; intros; field; auto.
  - split; [assumption |]. intros Hc.
    assert (ox * W1 == 0) as Hprod by lra.
    destruct (Qmult_integral _ _ Hprod); contradiction.
  - split; [assumption |]. intros Hc.
    assert (oy * H1 == 0) as Hprod by lra.
    destruct (Qmult_integral _ _ Hprod); contradiction.
Qed.

Lemma getOffset_stored (offsets : gmap nat Offset.t) (i : nat) (o : Offset.t) :
  offsets !! i = Some o -> getOffset offsets i = o.
Proof. intros Hi. unfold getOffset. by rewrite Hi. Qed.


Lemma drawAnnotation_label measure W H offsets ann i :
  isIdentical ann = false ->
  filledRects (drawAnnotation measure W H offsets ann i)
  = [Rect.mk (Point.x (labelOrigin measure W H offsets ann i))
             (Point.y (labelOrigin measure W H offsets ann i))
             (labelWidthOf measure W ann) (boxHeight W)].
Proof. intros Hid. unfold drawAnnotation. by rewrite Hid. Qed.

(** The drag scenario of the specification in binary64: the offset
    [{x: 50, y: -20}] is 50 px right and 20 px up on a 1000 px canvas,
    100 px right and 40 px up on a 2000 px canvas. *)
Lemma Binary64_drag_scenario :
  (Binary64.pixelOffset 50 1000 = 50 /\ Binary64.pixelOffset (-20) 1000 = -20)%float
  /\ (Binary64.pixelOffset 50 2000 = 100 /\ Binary64.pixelOffset (-20) 2000 = -40)%float.
Proof. repeat split; reflexivity. Qed.

(** C1, as the specification words it, fails on the code in its last
    part: the label of "Hello", dragged by [{x: 50, y: -20}], is drawn
    at [(215, 184)] on a canvas of 1000 by 1000 and at [(456.6, 364)] on
    one of 2000 by 2000, that is at [(0.215, 0.184)] and at
    [(0.2283, 0.182)] of the canvas. *)
Lemma relative_label_position_differs :
  (exists r1 r2,
     drawnLabel Examples.measure 1000 1000 {[ 0%nat := Offset.mk 50 (-20) ]}
       Examples.hello 0 = Some r1
     /\ drawnLabel Examples.measure 2000 2000 {[ 0%nat := Offset.mk 50 (-20) ]}
          Examples.hello 0 = Some r2
     /\ (Rect.x r1 == 215 /\ Rect.y r1 == 184)
     /\ (Rect.x r2 == (2283 # 5) /\ Rect.y r2 == 364))
  /\ ~ sameRelativeLabelPosition Examples.measure
        {[ 0%nat := Offset.mk 50 (-20) ]} Examples.hello 0 1000 1000 2000 2000.
Proof.
  split.
  - eexists _, _. split; [reflexivity |]. split; [reflexivity |].
    repeat split; reflexivity.
  - vm_compute. intros [Hx Hy]. discriminate Hy.
Qed.

(** C1, amended. For an annotation the export draws, with the offset
    [{x, y}] stored under its index, the label background is drawn at the
    default origin plus the pixel delta [(x*W/1000, y*H/1000)]; between
    two positive resolutions the two deltas stand in the ratios [W2/W1]
    and [H2/H1], and the delta is the same fraction of the canvas at
    both.  The label's own position relative to the canvas is not the
    same at both: for a label placed below its box the two relative
    heights differ by [4/H1 - 4/H2], the fixed gap of 4 pixels. *)
Theorem export_offset_resolution_independent
    (measure : Q -> JsString.t -> Q) (offsets : gmap nat Offset.t)
    (ann : Annotation.t) (i : nat) (offset : Offset.t)
    (ymin xmin ymax xmax W1 H1 W2 H2 : Q) :
  offsets !! i = Some offset ->
  isIdentical ann = false ->
  Annotation.box_2d ann = (ymin, xmin, ymax, xmax) ->
  0 < W1 -> 0 < H1 -> 0 < W2 -> 0 < H2 ->
  let base W H :=
    defaultLabelOrigin (Annotation.box_2d ann)
      (toPixelRect (Annotation.box_2d ann) W H)
      (labelWidthOf measure W ann) (boxHeight W) in
  exists r1 r2,
    drawnLabel measure W1 H1 offsets ann i = Some r1
    /\ drawnLabel measure W2 H2 offsets ann i = Some r2
    /\ let dx1 := Rect.x r1 - Point.x (base W1 H1) in
       let dy1 := Rect.y r1 - Point.y (base W1 H1) in
       let dx2 := Rect.x r2 - Point.x (base W2 H2) in
       let dy2 := Rect.y r2 - Point.y (base W2 H2) in
       (dx1 == Offset.x offset * W1 / 1000 /\ dy1 == Offset.y offset * H1 / 1000)
       /\ (dx2 == Offset.x offset * W2 / 1000
           /\ dy2 == Offset.y offset * H2 / 1000)
       /\ (dx2 == dx1 * (W2 / W1) /\ dy2 == dy1 * (H2 / H1))
       /\ (~ Offset.x offset == 0 -> dx2 / dx1 == W2 / W1)
       /\ (~ Offset.y offset == 0 -> dy2 / dy1 == H2 / H1)
       /\ (dx1 / W1 == dx2 / W2 /\ dy1 / H1 == dy2 / H2)
       /\ (ymax <= 850 ->
           Rect.y r1 / H1 - Rect.y r2 / H2 == 4 / H1 - 4 / H2).
Proof.
  intros Hstored Hid Hbox HW1 HH1 HW2 HH2. cbn zeta.
  exists (Rect.mk (Point.x (labelOrigin measure W1 H1 offsets ann i))
                  (Point.y (labelOrigin measure W1 H1 offsets ann i))
                  (labelWidthOf measure W1 ann) (boxHeight W1)),
         (Rect.mk (Point.x (labelOrigin measure W2 H2 offsets ann i))
                  (Point.y (labelOrigin measure W2 H2 offsets ann i))
                  (labelWidthOf measure W2 ann) (boxHeight W2)).
  split; [| split].
  - unfold drawnLabel. by rewrite (drawAnnotation_label _ _ _ _ _ _ Hid).
  - unfold drawnLabel. by rewrite (drawAnnotation_label _ _ _ _ _ _ Hid).
  - cbn [Rect.x Rect.y]. unfold labelOrigin.
    rewrite (getOffset_stored _ _ _ Hstored).
    pose proof (applyOffset_delta
                  (defaultLabelOrigin (Annotation.box_2d ann)
                     (toPixelRect (Annotation.box_2d ann) W1 H1)
                     (labelWidthOf measure W1 ann) (boxHeight W1))
                  (defaultLabelOrigin (Annotation.box_2d ann)
                     (toPixelRect (Annotation.box_2d ann) W2 H2)
                     (labelWidthOf measure W2 ann) (boxHeight W2))
                  offset W1 H1 W2 H2 HW1 HH1 HW2 HH2)
      as [Hd1 [Hd2 [Hratio [Hqx [Hqy Hfraction]]]]].
    repeat split; try tauto.
    intros Hbelow. apply Qltb_ge in Hbelow.
    rewrite Hbox. unfold applyOffset, pixelOffsetY, defaultLabelOrigin,
      toPixelRect. cbn [Point.y Rect.x Rect.y Rect.w Rect.h].
    rewrite Hbelow. cbn [Point.y]. field. split; lra.
Qed.

Lemma export_offset_resolution_independent_witness :
  let offsets : gmap nat Offset.t := {[ 0%nat := Offset.mk 50 (-20) ]} in
  let base W H :=
    defaultLabelOrigin (100, 100, 200, 300)
      (toPixelRect (100, 100, 200, 300) W H)
      (labelWidthOf Examples.measure W Examples.hello) (boxHeight W) in
  exists preview export,
    drawnLabel Examples.measure 1000 1000 offsets Examples.hello 0 = Some preview
    /\ drawnLabel Examples.measure 2000 2000 offsets Examples.hello 0 = Some export
    /\ (Rect.x preview - Point.x (base 1000 1000) == 50
        /\ Rect.y preview - Point.y (base 1000 1000) == -20)
    /\ (Rect.x export - Point.x (base 2000 2000) == 100
        /\ Rect.y export - Point.y (base 2000 2000) == -40)
    /\ (Rect.x export - Point.x (base 2000 2000))
       / (Rect.x preview - Point.x (base 1000 1000)) == 2000 / 1000
    /\ Rect.y preview / 1000 - Rect.y export / 2000 == 4 / 1000 - 4 / 2000.
Proof.
  assert (({[ 0%nat := Offset.mk 50 (-20) ]} : gmap nat Offset.t) !! 0%nat
          = Some (Offset.mk 50 (-20))) as Hstored by reflexivity.
  assert (isIdentical Examples.hello = false) as Hid by (vm_compute; reflexivity).
  assert (0 < 1000) as H1 by lra.
  assert (0 < 2000) as H2 by lra.
  assert (~ 50 == 0) as Hx by lra.
  assert (200 <= 850) as Hbelow by lra.
  destruct (export_offset_resolution_independent Examples.measure _
              Examples.hello 0 _ 100 100 200 300 1000 1000 2000 2000
              Hstored Hid eq_refl H1 H1 H2 H2)
    as [preview [export [Hpreview [Hexport
         [[Hdx1 Hdy1] [[Hdx2 Hdy2] [_ [Hratio [_ [_ Hgap]]]]]]]]]].
  cbn zeta. exists preview, export. repeat apply conj.
  - exact Hpreview.
  - exact Hexport.
  - rewrite Hdx1. reflexivity.
  - rewrite Hdy1. reflexivity.
  - rewrite Hdx2. reflexivity.
  - rewrite Hdy2. reflexivity.
  - exact (Hratio Hx).
  - exact (Hgap Hbelow).
Defined.


(** ** Default label placement *)

(** C3. The default vertical position of a label: above the box, at
    [rect.y - labelHeight - 4], when [ymax > 850], and below it, at
    [rect.y + rect.h + 4], otherwise.  Above means [labelY < rect.y] for
    any label of non-negative height, and so for the compositor's labels;
    below means [labelY > rect.y + rect.h].  A box with [ymax = 900] is
    labelled above and one with [ymax = 500] below. *)
Theorem defaultLabelOrigin_vertical
    (ymin xmin ymax xmax : Q) (rect : Rect.t) (labelWidth labelHeight : Q) :
  let labelY b := Point.y (defaultLabelOrigin b rect labelWidth labelHeight) in
  (850 < ymax ->
     labelY (ymin, xmin, ymax, xmax) = Rect.y rect - labelHeight - 4
     /\ (0 <= labelHeight -> labelY (ymin, xmin, ymax, xmax) < Rect.y rect))
  /\ (ymax <= 850 ->
        labelY (ymin, xmin, ymax, xmax) = Rect.y rect + Rect.h rect + 4
        /\ Rect.y rect + Rect.h rect < labelY (ymin, xmin, ymax, xmax))
  /\ (forall W, 850 < ymax ->
        Point.y (defaultLabelOrigin (ymin, xmin, ymax, xmax) rect
                   labelWidth (boxHeight W)) < Rect.y rect)
  /\ (0 <= labelHeight -> labelY (ymin, xmin, 900, xmax) < Rect.y rect)
  /\ Rect.y rect + Rect.h rect < labelY (ymin, xmin, 500, xmax).
Proof.
  cbn zeta.
  assert (forall ymax' height, 850 < ymax' ->
            Point.y (defaultLabelOrigin (ymin, xmin, ymax', xmax) rect
                       labelWidth height)
            = Rect.y rect - height - 4) as Habove.
  { intros ymax' height Hnear. apply Qltb_lt in Hnear.
    unfold defaultLabelOrigin. cbn. by rewrite Hnear. }
  assert (forall ymax', ymax' <= 850 ->
            Point.y (defaultLabelOrigin (ymin, xmin, ymax', xmax) rect
                       labelWidth labelHeight)
            = Rect.y rect + Rect.h rect + 4) as Hbelow.
  { intros ymax' Hfar. apply Qltb_ge in Hfar.
    unfold defaultLabelOrigin. cbn. by rewrite Hfar. }
  repeat apply conj.
  - intros Hnear. split; [by apply Habove |].
    intros Hh. rewrite (Habove _ _ Hnear). lra.
  - intros Hfar. split; [by apply Hbelow |].
    rewrite (Hbelow _ Hfar). lra.
  - intros W Hnear. rewrite (Habove _ _ Hnear).
    pose proof (boxHeight_pos W). lra.
  - intros Hh. rewrite Habove; lra.
  - rewrite Hbelow; lra.
Qed.

Lemma defaultLabelOrigin_vertical_witness :
  let low := toPixelRect (800, 100, 900, 300) 1000 1000 in
  let mid := toPixelRect (400, 100, 500, 300) 1000 1000 in
  let lowY :=
    Point.y (defaultLabelOrigin (800, 100, 900, 300) low 120 (boxHeight 1000)) in
  let midY :=
    Point.y (defaultLabelOrigin (400, 100, 500, 300) mid 120 (boxHeight 1000)) in
  (lowY = Rect.y low - boxHeight 1000 - 4 /\ lowY < Rect.y low)
  /\ (midY = Rect.y mid + Rect.h mid + 4 /\ Rect.y mid + Rect.h mid < midY).
Proof.
  assert (850 < 900) as Hnear by lra.
  assert (500 <= 850) as Hfar by lra.
  assert (0 <= boxHeight 1000) as Hh by (vm_compute; discriminate).
  destruct (defaultLabelOrigin_vertical 800 100 900 300
              (toPixelRect (800, 100, 900, 300) 1000 1000) 120 (boxHeight 1000))
    as [Habove _].
  destruct (defaultLabelOrigin_vertical 400 100 500 300
              (toPixelRect (400, 100, 500, 300) 1000 1000) 120 (boxHeight 1000))
    as [_ [Hbelow _]].
  destruct (Habove Hnear) as [Heq Hlt].
  split; [split; [exact Heq | exact (Hlt Hh)] | exact (Hbelow Hfar)].
Defined.

(** C4. The default horizontal position of a label: its left edge on the
    box's left edge when [xmin < 100]; else its right edge on the box's
    right edge when [xmax > 900]; else centred on the box.  A box with
    [xmin = 0] has [labelX = rect.x]. *)
Theorem defaultLabelOrigin_horizontal
    (ymin xmin ymax xmax : Q) (rect : Rect.t) (labelWidth labelHeight : Q) :
  let labelX b := Point.x (defaultLabelOrigin b rect labelWidth labelHeight) in
  (xmin < 100 -> labelX (ymin, xmin, ymax, xmax) = Rect.x rect)
  /\ (100 <= xmin -> 900 < xmax ->
        labelX (ymin, xmin, ymax, xmax)
        = (Rect.x rect + Rect.w rect) - labelWidth
        /\ labelX (ymin, xmin, ymax, xmax) + labelWidth
           == Rect.x rect + Rect.w rect)
  /\ (100 <= xmin -> xmax <= 900 ->
        labelX (ymin, xmin, ymax, xmax)
        = Rect.x rect + Rect.w rect / 2 - labelWidth / 2
        /\ labelX (ymin, xmin, ymax, xmax) + labelWidth / 2
           == Rect.x rect + Rect.w rect / 2)
  /\ labelX (ymin, 0, ymax, xmax) = Rect.x rect.
Proof.
  cbn zeta. repeat apply conj.
  - intros Hleft. apply Qltb_lt in Hleft.
    unfold defaultLabelOrigin. cbn. by rewrite Hleft.
  - intros Hleft Hright. apply Qltb_ge in Hleft. apply Qltb_lt in Hright.
    unfold defaultLabelOrigin. cbn. rewrite Hleft, Hright.
    split; [reflexivity | ring].
  - intros Hleft Hright. apply Qltb_ge in Hleft. apply Qltb_ge in Hright.
    unfold defaultLabelOrigin. cbn. rewrite Hleft, Hright.
    split; [reflexivity | ring].
  - reflexivity.
Qed.

Lemma defaultLabelOrigin_horizontal_witness :
  let labelX b :=
    Point.x (defaultLabelOrigin b (toPixelRect b 1000 1000) 120 40) in
  let right b := Rect.x (toPixelRect b 1000 1000) + Rect.w (toPixelRect b 1000 1000) in
  labelX (100, 50, 200, 300) = Rect.x (toPixelRect (100, 50, 200, 300) 1000 1000)
  /\ labelX (100, 700, 200, 950) + 120 == right (100, 700, 200, 950)
  /\ labelX (100, 100, 200, 300) + 120 / 2
     == Rect.x (toPixelRect (100, 100, 200, 300) 1000 1000)
        + Rect.w (toPixelRect (100, 100, 200, 300) 1000 1000) / 2
  /\ labelX (100, 100, 200, 300) == 140.
Proof.
  assert (50 < 100) as Hedge by lra.
  assert (100 <= 100) as Hleft by lra.
  assert (100 <= 700) as Hleft' by lra.
  assert (300 <= 900) as Hright by lra.
  assert (900 < 950) as Hright' by lra.
  destruct (defaultLabelOrigin_horizontal 100 50 200 300
              (toPixelRect (100, 50, 200, 300) 1000 1000) 120 40)
    as [Hl _].
  destruct (defaultLabelOrigin_horizontal 100 700 200 950
              (toPixelRect (100, 700, 200, 950) 1000 1000) 120 40)
    as [_ [Hr _]].
  destruct (defaultLabelOrigin_horizontal 100 100 200 300
              (toPixelRect (100, 100, 200, 300) 1000 1000) 120 40)
    as [_ [_ [Hc _]]].
  cbn zeta. repeat apply conj.
  - exact (Hl Hedge).
  - exact (proj2 (Hr Hleft' Hright')).
  - exact (proj2 (Hc Hleft Hright)).
  - reflexivity.
Defined.


(** ** The annotations array *)

Lemma length_spreadArray (arr : list Slot) :
  length (spreadArray arr) = length arr.
Proof. unfold spreadArray. apply length_fmap. Qed.

Lemma read_spreadArray (arr : list Slot) (j : nat) :
  read (spreadArray arr) j = read arr j.
Proof.
  unfold read, spreadArray. rewrite list_lookup_fmap.
  destruct (arr !! j) as [[ | | | ] | ]; reflexivity.
Qed.

Lemma lookup_spreadArray_item (arr : list Slot) (j : nat) (ann : Annotation.t) :
  arr !! j = Some (Item ann) -> spreadArray arr !! j = Some (Item ann).
Proof.
  intros Hj. unfold spreadArray. rewrite list_lookup_fmap, Hj. reflexivity.
Qed.

Lemma read_assignIndex_eq (arr : list Slot) (i : nat) (v : Slot) :
  v <> Hole -> read (assignIndex arr i v) i = v.
Proof.
  intros Hv. unfold read, assignIndex. case_decide as Hin.
  - rewrite list_lookup_insert_eq by exact Hin. by destruct v.
  - rewrite lookup_app_r by lia.
    rewrite lookup_app_r by (rewrite length_replicate; lia).
    rewrite length_replicate.
    replace (i - length arr - (i - length arr))%nat with 0%nat by lia.
    by destruct v.
Qed.

Lemma read_assignIndex_ne (arr : list Slot) (i j : nat) (v : Slot) :
  j <> i -> read (assignIndex arr i v) j = read arr j.
Proof.
  intros Hne. unfold read, assignIndex. case_decide as Hin.
  - rewrite list_lookup_insert_ne by congruence. reflexivity.
  - destruct (decide (j < length arr)%nat) as [Hj | Hj].
    + rewrite lookup_app_l by exact Hj. reflexivity.
    + rewrite (lookup_ge_None_2 arr j) by lia.
      rewrite lookup_app_r by lia.
      destruct (decide (j < i)%nat) as [Hlt | Hge].
      * rewrite lookup_app_l by (rewrite length_replicate; lia).
        rewrite lookup_replicate_2 by lia. reflexivity.
      * rewrite lookup_ge_None_2; [reflexivity |].
        rewrite length_app, length_replicate. cbn. lia.
Qed.

Lemma spreadWithTranslation_not_hole (s : Slot) (t : JsString.t) :
  spreadWithTranslation s t <> Hole.
Proof. by destruct s. Qed.

Lemma translationOf_spread (s : Slot) (t : JsString.t) :
  translationOf (spreadWithTranslation s t) = Some t.
Proof. by destruct s. Qed.

Lemma originalOf_spread_read (arr : list Slot) (j : nat) (t : JsString.t) :
  originalOf (spreadWithTranslation (read arr j) t) = originalOf (read arr j).
Proof.
  unfold read. destruct (arr !! j) as [[ | | | ] | ]; reflexivity.
Qed.

Lemma box_2dOf_spread_read (arr : list Slot) (j : nat) (t : JsString.t) :
  box_2dOf (spreadWithTranslation (read arr j) t) = box_2dOf (read arr j).
Proof.
  unfold read. destruct (arr !! j) as [[ | | | ] | ]; reflexivity.
Qed.

Lemma handleTextChange_annotations (s : AppState) (i : nat) (t : JsString.t) :
  ImageState.annotations (imageState (exec (handleTextChange i t) s))
  = editedAnnotations (ImageState.annotations (imageState s)) i t.
Proof. reflexivity. Qed.

Lemma editedAnnotations_item
    (arr : list Slot) (i : nat) (t : JsString.t) (ann : Annotation.t) :
  arr !! i = Some (Item ann) ->
  editedAnnotations arr i t !! i = Some (Item (Annotation.withTranslation ann t))
  /\ length (editedAnnotations arr i t) = length arr.
Proof.
  intros Hi. pose proof (lookup_lt_Some _ _ _ Hi) as Hlen.
  unfold editedAnnotations, assignIndex.
  rewrite length_spreadArray. case_decide; [| lia].
  rewrite length_insert, length_spreadArray.
  split; [| reflexivity].
  rewrite list_lookup_insert_eq by (rewrite length_spreadArray; lia).
  unfold read. rewrite (lookup_spreadArray_item _ _ _ Hi). reflexivity.
Qed.

(** C8. Editing the text of label [i] replaces [annotations[i].translation]
    by the new text and nothing else: [original] and [box_2d] at [i], every
    other element of the array, the stored offsets and the rest of the
    state are as before. *)
Theorem handleTextChange_frame (s : AppState) (i : nat) (newText : JsString.t) :
  let s' := exec (handleTextChange i newText) s in
  let before := ImageState.annotations (imageState s) in
  let after := ImageState.annotations (imageState s') in
  translationOf (read after i) = Some newText
  /\ originalOf (read after i) = originalOf (read before i)
  /\ box_2dOf (read after i) = box_2dOf (read before i)
  /\ (forall ann, before !! i = Some (Item ann) ->
        after !! i = Some (Item (Annotation.withTranslation ann newText))
        /\ length after = length before)
  /\ (forall j, j <> i -> read after j = read before j)
  /\ labelOffsets s' = labelOffsets s
  /\ (mode s', loading s', error s', editPrompt s')
     = (mode s, loading s, error s, editPrompt s)
  /\ (ImageState.original (imageState s'), ImageState.processed (imageState s'),
      ImageState.width (imageState s'), ImageState.height (imageState s'))
     = (ImageState.original (imageState s), ImageState.processed (imageState s),
        ImageState.width (imageState s), ImageState.height (imageState s)).
Proof.
  cbn zeta. rewrite handleTextChange_annotations.
  set (arr := ImageState.annotations (imageState s)).
  assert (read (editedAnnotations arr i newText) i
          = spreadWithTranslation (read arr i) newText) as Hat.
  { unfold editedAnnotations. rewrite read_spreadArray.
    apply read_assignIndex_eq, spreadWithTranslation_not_hole. }
  repeat apply conj; try reflexivity.
  - rewrite Hat. apply translationOf_spread.
  - rewrite Hat. apply originalOf_spread_read.
  - rewrite Hat. apply box_2dOf_spread_read.
  - intros ann Hi. by apply editedAnnotations_item.
  - intros j Hne. unfold editedAnnotations.
    rewrite read_assignIndex_ne by exact Hne. apply read_spreadArray.
Qed.

Lemma handleTextChange_frame_witness :
  let s' := exec (handleTextChange 0 [21704; 22217]%N) Examples.state in
  ImageState.annotations (imageState s') !! 0%nat
  = Some (Item (Annotation.withTranslation Examples.hello [21704; 22217]%N))
  /\ length (ImageState.annotations (imageState s')) = 2%nat
  /\ read (ImageState.annotations (imageState s')) 1 = Item Examples.year
  /\ labelOffsets s' = labelOffsets Examples.state.
Proof.
  assert (ImageState.annotations (imageState Examples.state) !! 0%nat
          = Some (Item Examples.hello)) as Hi by reflexivity.
  assert (1%nat <> 0%nat) as Hne by discriminate.
  pose proof (handleTextChange_frame Examples.state 0 [21704; 22217]%N)
    as [_ [_ [_ [Hitem [Hother [Hoffsets _]]]]]].
  cbn zeta in *. destruct (Hitem _ Hi) as [Hat Hlen].
  repeat apply conj.
  - exact Hat.
  - exact Hlen.
  - rewrite (Hother 1%nat Hne). reflexivity.
  - exact Hoffsets.
Defined.

(** ** The skip rule *)

Lemma andThen_nil (d : Drawn) : andThen [] d = d.
Proof. by destruct d. Qed.

Lemma drawAnnotation_identical measure W H offsets ann i :
  isIdentical ann = true -> drawAnnotation measure W H offsets ann i = [].
Proof. intros Hid. unfold drawAnnotation. by rewrite Hid. Qed.

(** An identical annotation takes part in the loop exactly as an empty
    slot does: the indices of the annotations after it are unaffected. *)
Lemma forEachFrom_identical measure W H offsets (arr : list Slot) :
  forall (k i : nat) (ann : Annotation.t),
    arr !! i = Some (Item ann) -> isIdentical ann = true ->
    forEachFrom measure W H offsets k arr
    = forEachFrom measure W H offsets k (<[i := Hole]> arr).
Proof.
  induction arr as [| s arr IH]; intros k i ann Hi Hid.
  - discriminate.
  - destruct i as [| i].
    + injection Hi as ->. cbn.
      rewrite (drawAnnotation_identical _ _ _ _ _ _ Hid). apply andThen_nil.
    + cbn in Hi. cbn.
      rewrite (IH (S k) i ann Hi Hid). reflexivity.
Qed.

Lemma handleDownload_reads_only (env : Browser) (s : AppState) :
  exec (handleDownload env) s = s.
Proof.
  unfold exec, handleDownload, mbind, Handler_bind, getState. cbn.
  destruct (truthy _); [| reflexivity].
  destruct (mode s); [| reflexivity].
  destruct (has2dContext env); [| reflexivity].
  destruct (drawAnnotations _ _ _ _ _); reflexivity.
Qed.

(** C5. An annotation whose trimmed original equals its trimmed
    translation gets neither outline nor label from the export
    compositor, and the export is what it would be with an empty slot in
    its place.  The annotation stays in the list at its index: the export
    leaves the state as it was, and the text and the offset at that index
    can still be edited. *)
Theorem identical_annotation_skipped
    (env : Browser) (s : AppState) (i : nat) (ann : Annotation.t) :
  ImageState.annotations (imageState s) !! i = Some (Item ann) ->
  isIdentical ann = true ->
  drawAnnotation (measureText env) (naturalWidth env) (naturalHeight env)
    (labelOffsets s) ann i = []
  /\ result (handleDownload env) s
     = result (handleDownload env)
         (exec (setImageState (fun prev =>
            ImageState.withAnnotations prev
              (<[i := Hole]> (ImageState.annotations prev)))) s)
  /\ ImageState.annotations (imageState (exec (handleDownload env) s)) !! i
     = Some (Item ann)
  /\ (forall newText,
        ImageState.annotations
          (imageState (exec (handleTextChange i newText) s)) !! i
        = Some (Item (Annotation.withTranslation ann newText)))
  /\ (forall offset,
        getOffset (labelOffsets (exec (handleOffsetChange i offset) s)) i
        = offset).
Proof.
  intros Hi Hid. repeat apply conj.
  - by apply drawAnnotation_identical.
  - unfold result, handleDownload, mbind, Handler_bind, getState. cbn.
    destruct (truthy _); [| reflexivity].
    destruct (mode s); [| reflexivity].
    destruct (has2dContext env); [| reflexivity].
    unfold drawAnnotations.
    rewrite <- (forEachFrom_identical _ _ _ _ _ _ _ _ Hi Hid).
    destruct (forEachFrom _ _ _ _ _ _); reflexivity.
  - by rewrite handleDownload_reads_only.
  - intros newText. rewrite handleTextChange_annotations.
    by apply editedAnnotations_item.
  - intros offset. apply getOffset_stored. cbn. apply lookup_insert_eq.
Qed.

Lemma identical_annotation_skipped_witness :
  isIdentical Examples.year = true
  /\ drawAnnotation Examples.measure 1000 1000
       (labelOffsets Examples.state) Examples.year 1 = []
  /\ ImageState.annotations
       (imageState (exec (handleDownload Examples.browser) Examples.state))
       !! 1%nat = Some (Item Examples.year)
  /\ ImageState.annotations
       (imageState (exec (handleTextChange 1 [24180]%N) Examples.state))
       !! 1%nat
     = Some (Item (Annotation.withTranslation Examples.year [24180]%N)).
Proof.
  assert (ImageState.annotations (imageState Examples.state) !! 1%nat
          = Some (Item Examples.year)) as Hi by reflexivity.
  assert (isIdentical Examples.year = true) as Hid by (vm_compute; reflexivity).
  destruct (identical_annotation_skipped Examples.browser Examples.state 1
              Examples.year Hi Hid) as [Hnone [_ [Hstays [Htext _]]]].
  repeat apply conj.
  - exact Hid.
  - exact Hnone.
  - exact Hstays.
  - exact (Htext [24180]%N).
Defined.

(** ** Malformed boxes *)

Lemma drawAnnotation_visible measure W H offsets ann i :
  isIdentical ann = false ->
  strokedRects (drawAnnotation measure W H offsets ann i)
  = [toPixelRect (Annotation.box_2d ann) W H].
Proof. intros Hid. unfold drawAnnotation. by rewrite Hid. Qed.

(** C7, as the specification words it, fails on the code: a translated
    segment whose box has [ymin = 500 > ymax = 200] is drawn, and the
    outline has height [-300], which no valid box yields. *)
Lemma inverted_box_not_clamped :
  ~ validBox (Annotation.box_2d Examples.inverted)
  /\ ~ clampsOrSkips Examples.measure 1000 1000 ∅ Examples.inverted 0.
Proof.
  split.
  - unfold validBox. cbn. intros [[_ [Hinv _]] _]. by apply Hinv.
  - assert (isIdentical Examples.inverted = false) as Hid
      by (vm_compute; reflexivity).
    unfold clampsOrSkips. cbn zeta. intros [Hskip | [b [Hvalid Hsame]]].
    + apply (f_equal strokedRects) in Hskip.
      rewrite (drawAnnotation_visible _ _ _ _ _ _ Hid) in Hskip.
      discriminate.
    + rewrite (drawAnnotation_visible _ _ _ _ _ _ Hid) in Hsame.
      apply Forall2_cons_1 in Hsame as [[_ [_ [_ Hh]]] _].
      destruct b as [[[ymin xmin] ymax] xmax].
      destruct Hvalid as [[_ [Hy _]] _].
      assert (0 <= ymax - ymin) as Hdy by lra.
      assert (0 < 1000) as Hpos by lra.
      pose proof (scale_nonneg _ 1000 Hdy Hpos) as Hh0.
      cbn in Hh. rewrite <- Hh in Hh0. vm_compute in Hh0. by apply Hh0.
Qed.

(** C7, amended. The compositor neither validates nor clamps [box_2d]:
    for an annotation whose trimmed texts differ, the outline is the
    rectangle computed from the coordinates as given, so that on a
    canvas of positive size an inverted box gives a negative width or
    height, and a coordinate below 0 a negative position.  What decides
    whether an annotation is skipped is its text alone. *)
Theorem box_used_as_given
    (measure : Q -> JsString.t -> Q) (W H : Q)
    (offsets : gmap nat Offset.t) (ann : Annotation.t) (i : nat)
    (ymin xmin ymax xmax : Q) :
  Annotation.box_2d ann = (ymin, xmin, ymax, xmax) ->
  isIdentical ann = false ->
  exists r,
    strokedRects (drawAnnotation measure W H offsets ann i) = [r]
    /\ (Rect.x r == xmin * W / 1000 /\ Rect.y r == ymin * H / 1000
        /\ Rect.w r == (xmax - xmin) * W / 1000
        /\ Rect.h r == (ymax - ymin) * H / 1000)
    /\ (0 < W -> xmax < xmin -> Rect.w r < 0)
    /\ (0 < H -> ymax < ymin -> Rect.h r < 0)
    /\ (0 < W -> xmin < 0 -> Rect.x r < 0)
    /\ (0 < H -> ymin < 0 -> Rect.y r < 0)
    /\ (0 < W -> 1000 < xmax -> W < Rect.x r + Rect.w r)
    /\ (0 < H -> 1000 < ymax -> H < Rect.y r + Rect.h r).
Proof.
  intros Hbox Hid. exists (toPixelRect (ymin, xmin, ymax, xmax) W H).
  rewrite (drawAnnotation_visible _ _ _ _ _ _ Hid), Hbox.
  split; [reflexivity |]. cbn.
  split; [repeat split; field |].
  repeat apply conj; intros Hpos Hbad.
  - apply scale_neg; lra.
  - apply scale_neg; lra.
  - apply scale_neg; lra.
  - apply scale_neg; lra.
  - assert (0 < (xmax - 1000) / 1000 * W) as Hover
      by (apply Qmult_lt_0_compat; [qconst; lra | lra]).
    qconst. lra.
  - assert (0 < (ymax - 1000) / 1000 * H) as Hover
      by (apply Qmult_lt_0_compat; [qconst; lra | lra]).
    qconst. lra.
Qed.

Lemma box_used_as_given_witness :
  isIdentical Examples.inverted = false
  /\ exists r,
       strokedRects
         (drawAnnotation Examples.measure 1000 1000 ∅ Examples.inverted 0) = [r]
       /\ Rect.h r == -300
       /\ Rect.h r < 0.
Proof.
  assert (isIdentical Examples.inverted = false) as Hid
    by (vm_compute; reflexivity).
  assert (0 < 1000) as Hpos by lra.
  assert (200 < 500) as Hinv by lra.
  destruct (box_used_as_given Examples.measure 1000 1000 ∅ Examples.inverted 0
              500 100 200 300 eq_refl Hid)
    as [r [Hr [[_ [_ [_ Hh]]] [_ [Hneg _]]]]].
  split; [exact Hid |].
  exists r. repeat apply conj.
  - exact Hr.
  - rewrite Hh. reflexivity.
  - exact (Hneg Hpos Hinv).
Defined.

(** ** Failed detection *)

Lemma processTranslation_no_image (d : Detection) (s : AppState) :
  truthy (ImageState.original (imageState s)) = None ->
  exec (processTranslation d) s = s.
Proof.
  intros Hnone. unfold exec, processTranslation, mbind, Handler_bind, getState.
  cbn. by rewrite Hnone.
Qed.

(** C10. When the detection call of a translation run throws, the
    annotation list is as before the run and the offset store is empty:
    the offsets are cleared before the call, whatever its outcome. *)
Theorem processTranslation_failure (s : AppState) :
  is_Some (truthy (ImageState.original (imageState s))) ->
  let s' := exec (processTranslation Throws) s in
  imageState s' = imageState s
  /\ ImageState.annotations (imageState s') = ImageState.annotations (imageState s)
  /\ labelOffsets s' = ∅
  /\ error s' = Some "Failed to process translation. Please try again."
  /\ loading s' = false
  /\ (forall d, labelOffsets (exec (processTranslation d) s) = ∅).
Proof.
  intros [original Horiginal]. cbn zeta.
  unfold exec, processTranslation, mbind, Handler_bind, getState. cbn.
  rewrite Horiginal. cbn.
  repeat apply conj; try reflexivity.
  intros [| results]; cbn; [reflexivity |].
  case_decide; reflexivity.
Qed.

Lemma processTranslation_failure_witness :
  let s' := exec (processTranslation Throws) Examples.state in
  labelOffsets Examples.state !! 0%nat = Some (Offset.mk 50 (-20))
  /\ ImageState.annotations (imageState s')
     = [Item Examples.hello; Item Examples.year]
  /\ labelOffsets s' = ∅.
Proof.
  assert (is_Some (truthy (ImageState.original (imageState Examples.state))))
    as Himage by (eexists; reflexivity).
  destruct (processTranslation_failure Examples.state Himage)
    as [_ [Hann [Hoffsets _]]].
  cbn zeta. repeat apply conj.
  - reflexivity.
  - exact Hann.
  - exact Hoffsets.
Defined.

(** * Further properties of the handlers *)

(** ** The offset store *)

(** X1. Storing an offset for a label and reading it back gives that
    offset; the offsets of the other labels and the image state are
    untouched. *)
Theorem handleOffsetChange_lookup (s : AppState) (i : nat) (offset : Offset.t) :
  let s' := exec (handleOffsetChange i offset) s in
  getOffset (labelOffsets s') i = offset
  /\ (forall j, j <> i ->
        getOffset (labelOffsets s') j = getOffset (labelOffsets s) j)
  /\ imageState s' = imageState s.
Proof.
  cbn. repeat apply conj.
  - apply getOffset_stored, lookup_insert_eq.
  - intros j Hne. unfold getOffset. by rewrite lookup_insert_ne.
  - reflexivity.
Qed.

(** X2. A stored offset is replaced, not accumulated: of two updates of
    the same label only the later one counts, and updates of different
    labels can be made in either order. *)
Theorem handleOffsetChange_replaces (s : AppState) (i j : nat) (o1 o2 : Offset.t) :
  exec (handleOffsetChange i o2) (exec (handleOffsetChange i o1) s)
  = exec (handleOffsetChange i o2) s
  /\ (i <> j ->
      exec (handleOffsetChange i o1) (exec (handleOffsetChange j o2) s)
      = exec (handleOffsetChange j o2) (exec (handleOffsetChange i o1) s)).
Proof.
  split.
  - unfold exec, handleOffsetChange, setLabelOffsets. cbn.
    by rewrite insert_insert_eq.
  - intros Hne. unfold exec, handleOffsetChange, setLabelOffsets. cbn.
    by rewrite (insert_insert_ne (labelOffsets s) i j).
Qed.

(** ** Editing texts of a well-formed list *)

Lemma spreadArray_items (anns : list Annotation.t) :
  spreadArray (Item <$> anns) = Item <$> anns.
Proof.
  unfold spreadArray. rewrite <- list_fmap_compose. by apply list_fmap_ext.
Qed.

Lemma editedAnnotations_items
    (anns : list Annotation.t) (i : nat) (t : JsString.t) :
  (i < length anns)%nat ->
  editedAnnotations (Item <$> anns) i t
  = Item <$> alter (fun ann => Annotation.withTranslation ann t) i anns.
Proof.
  intros Hi.
  destruct (lookup_lt_is_Some_2 anns i Hi) as [ann Hann].
  unfold editedAnnotations, assignIndex. rewrite spreadArray_items.
  rewrite length_fmap. case_decide; [| lia].
  unfold read. rewrite list_lookup_fmap, Hann. cbn.
  apply list_eq. intros j. rewrite list_lookup_fmap.
  destruct (decide (i = j)) as [<- | Hne].
  - rewrite list_lookup_insert_eq by (rewrite length_fmap; lia).
    by rewrite list_lookup_alter_eq, Hann.
  - rewrite list_lookup_insert_ne by exact Hne.
    by rewrite list_lookup_alter_ne, list_lookup_fmap.
Qed.

(** X3. On a list of complete annotations, editing the text of an
    existing label changes that one annotation's translation and leaves
    a list of complete annotations of the same length. *)
Theorem handleTextChange_alters
    (s : AppState) (anns : list Annotation.t) (i : nat) (newText : JsString.t) :
  ImageState.annotations (imageState s) = Item <$> anns ->
  (i < length anns)%nat ->
  ImageState.annotations (imageState (exec (handleTextChange i newText) s))
  = Item <$> alter (fun ann => Annotation.withTranslation ann newText) i anns.
Proof.
  intros Hanns Hi. rewrite handleTextChange_annotations, Hanns.
  by apply editedAnnotations_items.
Qed.

Lemma handleTextChange_alters_witness :
  ImageState.annotations
    (imageState (exec (handleTextChange 1 [24180]%N) Examples.state))
  = [Item Examples.hello;
     Item (Annotation.withTranslation Examples.year [24180]%N)].
Proof.
  assert (ImageState.annotations (imageState Examples.state)
          = Item <$> [Examples.hello; Examples.year]) as Hanns by reflexivity.
  assert (1 < length [Examples.hello; Examples.year])%nat as Hi by (cbn; lia).
  rewrite (handleTextChange_alters Examples.state _ 1 [24180]%N Hanns Hi).
  reflexivity.
Defined.

Lemma spreadWithTranslation_twice (v : Slot) (t1 t2 : JsString.t) :
  spreadWithTranslation (spreadWithTranslation v t1) t2
  = spreadWithTranslation v t2.
Proof. by destruct v. Qed.

Lemma spreadArray_idemp (arr : list Slot) :
  spreadArray (spreadArray arr) = spreadArray arr.
Proof.
  unfold spreadArray. rewrite <- list_fmap_compose.
  apply list_fmap_ext. by intros ? [ | | | ].
Qed.

Lemma handleTextChange_exec (s : AppState) (i : nat) (t : JsString.t) :
  exec (handleTextChange i t) s
  = {| mode := mode s; loading := loading s; error := error s;
       imageState :=
         ImageState.withAnnotations (imageState s)
           (editedAnnotations (ImageState.annotations (imageState s)) i t);
       labelOffsets := labelOffsets s; editPrompt := editPrompt s |}.
Proof. reflexivity. Qed.

(** X4. Of two successive edits of the text of an existing label only
    the later one shows: the state is the one the later edit alone gives. *)
Theorem handleTextChange_last_wins
    (s : AppState) (i : nat) (t1 t2 : JsString.t) :
  (i < length (ImageState.annotations (imageState s)))%nat ->
  exec (handleTextChange i t2) (exec (handleTextChange i t1) s)
  = exec (handleTextChange i t2) s.
Proof.
  intros Hi.
  assert (forall arr, (i < length arr)%nat ->
            editedAnnotations (editedAnnotations arr i t1) i t2
            = editedAnnotations arr i t2) as Hedit.
  { intros arr Hlen. unfold editedAnnotations at 2.
    unfold assignIndex. rewrite length_spreadArray.
    case_decide; [| lia].
    set (v1 := spreadWithTranslation (read (spreadArray arr) i) t1).
    unfold editedAnnotations, assignIndex.
    assert (spreadArray (<[i:=v1]> (spreadArray arr)) = <[i:=v1]> (spreadArray arr))
      as Hspread.
    { unfold spreadArray at 1. rewrite list_fmap_insert.
      fold (spreadArray (spreadArray arr)). rewrite spreadArray_idemp.
      subst v1. by destruct (read (spreadArray arr) i). }
    rewrite Hspread, length_insert, length_spreadArray.
    case_decide; [| lia].
    assert (read (<[i:=v1]> (spreadArray arr)) i = v1) as Hread.
    { unfold read.
      rewrite list_lookup_insert_eq by (rewrite length_spreadArray; lia).
      subst v1. by destruct (read (spreadArray arr) i). }
    rewrite Hread. subst v1.
    by rewrite spreadWithTranslation_twice, list_insert_insert_eq. }
  rewrite (handleTextChange_exec _ i t2), (handleTextChange_exec s i t1),
    (handleTextChange_exec s i t2).
  cbn [mode loading error imageState labelOffsets editPrompt].
  unfold ImageState.withAnnotations.
  cbn [ImageState.original ImageState.processed ImageState.annotations
       ImageState.width ImageState.height].
  by rewrite Hedit.
Qed.

Lemma handleTextChange_last_wins_witness :
  exec (handleTextChange 0 [21704]%N)
    (exec (handleTextChange 0 [20320]%N) Examples.state)
  = exec (handleTextChange 0 [21704]%N) Examples.state.
Proof.
  assert (0 < length (ImageState.annotations (imageState Examples.state)))%nat
    as Hi by (cbn; lia).
  exact (handleTextChange_last_wins Examples.state 0 [20320]%N [21704]%N Hi).
Defined.

(** ** Editing past the end of the list *)

Lemma forEachFrom_throws measure W H offsets (arr : list Slot) :
  forall (k j : nat) (v : Slot),
    arr !! j = Some v ->
    (v = Undefined \/ exists t, v = TranslationOnly t) ->
    exists ops, forEachFrom measure W H offsets k arr = Threw ops.
Proof.
  induction arr as [| head arr IH]; intros k j v Hj Hv; [discriminate |].
  destruct j as [| j].
  - injection Hj as ->. destruct Hv as [-> | [t ->]]; cbn; eauto.
  - cbn in Hj. destruct (IH (S k) j v Hj Hv) as [ops Hops].
    destruct head; cbn; rewrite ?Hops; cbn; eauto.
Qed.

Lemma editedAnnotations_past_end (arr : list Slot) (i : nat) (t : JsString.t) :
  (length arr <= i)%nat ->
  editedAnnotations arr i t
  = spreadArray arr ++ replicate (i - length arr) Hole ++ [TranslationOnly t].
Proof.
  intros Hlen. unfold editedAnnotations, assignIndex.
  rewrite length_spreadArray. case_decide; [lia |].
  unfold read. rewrite lookup_ge_None_2 by (rewrite length_spreadArray; lia).
  reflexivity.
Qed.

(** X5. Editing the text of an index at or past the end of the list
    does not fail: the list grows to [index + 1] elements, with empty
    slots up to the index and, at the index, an object that has a
    translation only.  A download in translate mode is then rejected
    instead of producing a file. *)
Theorem handleTextChange_past_end
    (env : Browser) (s : AppState) (i : nat) (newText : JsString.t) :
  (length (ImageState.annotations (imageState s)) <= i)%nat ->
  let before := ImageState.annotations (imageState s) in
  let s' := exec (handleTextChange i newText) s in
  let after := ImageState.annotations (imageState s') in
  length after = S i
  /\ after !! i = Some (TranslationOnly newText)
  /\ (forall j, (length before <= j < i)%nat -> after !! j = Some Hole)
  /\ (exportable s -> has2dContext env = true ->
      exists ops, result (handleDownload env) s' = Rejected ops).
Proof.
  intros Hlen. cbn zeta. rewrite handleTextChange_annotations.
  rewrite (editedAnnotations_past_end _ _ _ Hlen).
  set (arr := ImageState.annotations (imageState s)) in *.
  assert ((spreadArray arr ++ replicate (i - length arr) Hole
             ++ [TranslationOnly newText]) !! i
          = Some (TranslationOnly newText)) as Hat.
  { rewrite lookup_app_r by (rewrite length_spreadArray; lia).
    rewrite lookup_app_r by (rewrite length_replicate, length_spreadArray; lia).
    rewrite length_replicate, length_spreadArray.
    by replace (i - length arr - (i - length arr))%nat with 0%nat by lia. }
  repeat apply conj.
  - rewrite !length_app, length_replicate, length_spreadArray. cbn. lia.
  - exact Hat.
  - intros j [Hlo Hhi].
    rewrite lookup_app_r by (rewrite length_spreadArray; lia).
    rewrite lookup_app_l by (rewrite length_replicate, length_spreadArray; lia).
    apply lookup_replicate_2. rewrite length_spreadArray. lia.
  - intros [[url Hurl] Hmode] Hctx.
    destruct (forEachFrom_throws (measureText env) (naturalWidth env)
                (naturalHeight env) (labelOffsets s) _ 0 i _ Hat)
      as [ops Hops]; [right; eauto |].
    exists ops.
    unfold result, handleDownload, mbind, Handler_bind, getState. cbn.
    rewrite Hurl, Hmode, Hctx. unfold drawAnnotations.
    fold arr. unfold editedAnnotations, assignIndex.
    rewrite length_spreadArray. case_decide; [lia |].
    unfold read at 1.
    rewrite lookup_ge_None_2 by (rewrite length_spreadArray; lia).
    cbn [spreadWithTranslation]. by rewrite Hops.
Qed.

Lemma handleTextChange_past_end_witness :
  let s' := exec (handleTextChange 4 [65]%N) Examples.state in
  ImageState.annotations (imageState s')
  = [Item Examples.hello; Item Examples.year; Hole; Hole; TranslationOnly [65]%N]
  /\ exists ops, result (handleDownload Examples.browser) s' = Rejected ops.
Proof.
  assert (length (ImageState.annotations (imageState Examples.state)) <= 4)%nat
    as Hlen by (cbn; lia).
  assert (exportable Examples.state) as Hexp
    by (split; [eexists |]; reflexivity).
  destruct (handleTextChange_past_end Examples.browser Examples.state 4 [65]%N Hlen)
    as [_ [_ [_ Hrejected]]].
  split; [reflexivity | exact (Hrejected Hexp eq_refl)].
Defined.

(** ** The export of a well-formed list *)

Lemma forEachFrom_items measure W H offsets (anns : list Annotation.t) :
  forall k,
    forEachFrom measure W H offsets k (Item <$> anns)
    = Completed
        (mjoin (imap (fun j ann => drawAnnotation measure W H offsets ann (k + j))
                  anns)).
Proof.
  induction anns as [| ann anns IH]; intros k; [reflexivity |].
  cbn. rewrite IH. cbn. rewrite Nat.add_0_r. do 2 f_equal.
  f_equal. apply imap_ext. intros j a _. cbn. f_equal. lia.
Qed.

(** X6. When every element of the list is a complete annotation, a
    download in translate mode with an image loaded and a canvas context
    is never rejected: the file is the base image at its natural size
    with the canvas calls of the annotations in list order, each drawn
    with the offset stored under its own index. *)
Theorem handleDownload_composite
    (env : Browser) (s : AppState) (anns : list Annotation.t) :
  exportable s ->
  has2dContext env = true ->
  ImageState.annotations (imageState s) = Item <$> anns ->
  result (handleDownload env) s
  = Clicked (Composite (naturalWidth env) (naturalHeight env)
      (mjoin (imap (fun i ann =>
                drawAnnotation (measureText env) (naturalWidth env)
                  (naturalHeight env) (labelOffsets s) ann i) anns))).
Proof.
  intros [[url Hurl] Hmode] Hctx Hanns.
  unfold result, handleDownload, mbind, Handler_bind, getState. cbn.
  rewrite Hurl, Hmode, Hctx, Hanns. unfold drawAnnotations.
  by rewrite forEachFrom_items.
Qed.

Lemma handleDownload_composite_witness :
  result (handleDownload Examples.browser) Examples.state
  = Clicked (Composite 1000 1000
      (drawAnnotation Examples.measure 1000 1000
         {[ 0%nat := Offset.mk 50 (-20) ]} Examples.hello 0 ++ [])).
Proof.
  assert (exportable Examples.state) as Hexp
    by (split; [eexists |]; reflexivity).
  rewrite (handleDownload_composite Examples.browser Examples.state
             [Examples.hello; Examples.year] Hexp eq_refl eq_refl).
  reflexivity.
Defined.

Lemma opsOf_andThen (ops : list DrawOp) (d : Drawn) :
  opsOf (andThen ops d) = ops ++ opsOf d.
Proof. by destruct d. Qed.

Lemma filledTexts_visible measure W H offsets ann i :
  isIdentical ann = false ->
  (filledTexts (drawAnnotation measure W H offsets ann i)).*1
  = [Annotation.translation ann].
Proof. intros Hid. unfold drawAnnotation. by rewrite Hid. Qed.

(** X7. The export holds, in list order, exactly one outline, one label
    background and one text per annotation whose trimmed texts differ:
    the outlines are the pixel rectangles of their boxes, whatever the
    stored offsets, and the texts are their translations. *)
Theorem export_follows_list_order
    (measure : Q -> JsString.t -> Q) (W H : Q)
    (offsets : gmap nat Offset.t) (anns : list Annotation.t) :
  let ops := opsOf (drawAnnotations measure W H offsets (Item <$> anns)) in
  strokedRects ops
  = (fun ann => toPixelRect (Annotation.box_2d ann) W H) <$> visible anns
  /\ (filledTexts ops).*1 = Annotation.translation <$> visible anns
  /\ length (filledRects ops) = length (visible anns)
  /\ length ops = (3 * length (visible anns))%nat.
Proof.
  unfold drawAnnotations.
  enough (forall k,
    let ops := opsOf (forEachFrom measure W H offsets k (Item <$> anns)) in
    strokedRects ops
    = (fun ann => toPixelRect (Annotation.box_2d ann) W H) <$> visible anns
    /\ (filledTexts ops).*1 = Annotation.translation <$> visible anns
    /\ length (filledRects ops) = length (visible anns)
    /\ length ops = (3 * length (visible anns))%nat) as Hfrom
    by exact (Hfrom 0%nat).
  induction anns as [| ann anns IH]; intros k; [by cbn |].
  destruct (IH (S k)) as [Hstroke [Htext [Hfill Hlen]]].
  cbn [fmap list_fmap forEachFrom]. cbn zeta. rewrite opsOf_andThen.
  assert (forall a b, strokedRects (a ++ b) = strokedRects a ++ strokedRects b)
    as Hs by (intros; apply omap_app).
  assert (forall a b, filledTexts (a ++ b) = filledTexts a ++ filledTexts b)
    as Ht by (intros; apply omap_app).
  assert (forall a b, filledRects (a ++ b) = filledRects a ++ filledRects b)
    as Hf by (intros; apply omap_app).
  rewrite Hs, Ht, Hf, fmap_app, !length_app.
  rewrite Hstroke, Htext, Hfill, Hlen. unfold visible.
  rewrite filter_cons.
  destruct (isIdentical ann) eqn:Hid.
  - rewrite (drawAnnotation_identical _ _ _ _ _ _ Hid).
    case_decide; [discriminate |]. by cbn.
  - rewrite (drawAnnotation_visible _ _ _ _ _ _ Hid),
      (filledTexts_visible _ _ _ _ _ _ Hid),
      (drawAnnotation_label _ _ _ _ _ _ Hid).
    case_decide; [| congruence].
    repeat split; cbn; try reflexivity.
    unfold drawAnnotation. rewrite Hid. cbn. lia.
Qed.

Lemma forEachFrom_offsets_agree measure W H (o1 o2 : gmap nat Offset.t)
    (arr : list Slot) :
  forall k,
    (forall j, (j < length arr)%nat ->
       getOffset o1 (k + j) = getOffset o2 (k + j)) ->
    forEachFrom measure W H o1 k arr = forEachFrom measure W H o2 k arr.
Proof.
  induction arr as [| head arr IH]; intros k Hagree; [reflexivity |].
  assert (forEachFrom measure W H o1 (S k) arr
          = forEachFrom measure W H o2 (S k) arr) as Hrest.
  { apply IH. intros j Hj. replace (S k + j)%nat with (k + S j)%nat by lia.
    apply Hagree. cbn. lia. }
  destruct head; cbn; rewrite ?Hrest; try reflexivity.
  f_equal. unfold drawAnnotation, labelOrigin.
  specialize (Hagree 0%nat). rewrite Nat.add_0_r in Hagree.
  rewrite Hagree by (cbn; lia). reflexivity.
Qed.

(** X8. Moving one label does not move another: the canvas calls for
    annotation [i] are the same after an offset is stored under another
    index, and an offset stored under an index at or past the end of
    the list does not change the download at all. *)
Theorem handleOffsetChange_local
    (env : Browser) (s : AppState) (j : nat) (offset : Offset.t) :
  let s' := exec (handleOffsetChange j offset) s in
  (forall measure W H ann i, i <> j ->
     drawAnnotation measure W H (labelOffsets s') ann i
     = drawAnnotation measure W H (labelOffsets s) ann i)
  /\ ((length (ImageState.annotations (imageState s)) <= j)%nat ->
      result (handleDownload env) s' = result (handleDownload env) s).
Proof.
  cbn zeta.
  assert (forall i, i <> j ->
            getOffset (labelOffsets (exec (handleOffsetChange j offset) s)) i
            = getOffset (labelOffsets s) i) as Hother.
  { intros i Hne. unfold getOffset. cbn. by rewrite lookup_insert_ne. }
  split.
  - intros measure W H ann i Hne. unfold drawAnnotation, labelOrigin.
    by rewrite (Hother i Hne).
  - intros Hlen.
    unfold result, handleDownload, mbind, Handler_bind, getState. cbn.
    destruct (truthy _); [| reflexivity].
    destruct (mode s); [| reflexivity].
    destruct (has2dContext env); [| reflexivity].
    unfold drawAnnotations.
    rewrite (forEachFrom_offsets_agree _ _ _
               (<[j:=offset]> (labelOffsets s)) (labelOffsets s)).
    + destruct (forEachFrom _ _ _ _ _ _); reflexivity.
    + intros i Hi. cbn. apply (Hother i). lia.
Qed.

(** ** Translation runs *)

Lemma truthy_data_url (prefix_tail rest : string) (c : Ascii.ascii) :
  truthy (Some (String c prefix_tail +:+ rest))
  = Some (String c prefix_tail +:+ rest).
Proof. unfold truthy. cbn. case_decide; [discriminate | reflexivity]. Qed.

(** X9. A translation run whose detection succeeds replaces the list by
    the detected annotations, empties the offset store and ends with the
    loading flag off; the error banner is set exactly when nothing was
    detected.  The next download in translate mode then draws every
    label with no offset. *)
Theorem processTranslation_success (s : AppState) (results : list Annotation.t) :
  is_Some (truthy (ImageState.original (imageState s))) ->
  let s' := exec (processTranslation (Returns results)) s in
  ImageState.annotations (imageState s') = Item <$> results
  /\ labelOffsets s' = ∅
  /\ loading s' = false
  /\ error s' = match results with
                | [] => Some "No English text detected to translate."
                | _ :: _ => None
                end
  /\ (ImageState.original (imageState s'), ImageState.processed (imageState s'),
      mode s', editPrompt s')
     = (ImageState.original (imageState s), ImageState.processed (imageState s),
        mode s, editPrompt s)
  /\ (forall env, mode s = TRANSLATE -> has2dContext env = true ->
        result (handleDownload env) s'
        = Clicked (Composite (naturalWidth env) (naturalHeight env)
            (mjoin (imap (fun i ann =>
                      drawAnnotation (measureText env) (naturalWidth env)
                        (naturalHeight env) ∅ ann i) results)))).
Proof.
  intros [url Hurl]. cbn zeta.
  assert (exec (processTranslation (Returns results)) s
          = {| mode := mode s; loading := false;
               error := match results with
                        | [] => Some "No English text detected to translate."
                        | _ :: _ => None
                        end;
               imageState :=
                 ImageState.withAnnotations (imageState s) (Item <$> results);
               labelOffsets := ∅; editPrompt := editPrompt s |}) as Hexec.
  { unfold exec, processTranslation, mbind, Handler_bind, getState. cbn.
    rewrite Hurl. cbn. by destruct results. }
  rewrite Hexec. repeat apply conj; try reflexivity.
  intros env Hmode Hctx.
  unfold result, handleDownload, mbind, Handler_bind, getState.
  cbn [fst mode imageState labelOffsets ImageState.withAnnotations
       ImageState.original ImageState.processed ImageState.annotations].
  rewrite Hurl, Hmode, Hctx. unfold drawAnnotations.
  by rewrite forEachFrom_items.
Qed.

Lemma processTranslation_success_witness :
  let s' := exec (processTranslation (Returns [])) Examples.state in
  ImageState.annotations (imageState s') = []
  /\ labelOffsets s' = ∅
  /\ error s' = Some "No English text detected to translate."
  /\ result (handleDownload Examples.browser) s'
     = Clicked (Composite 1000 1000 []).
Proof.
  assert (is_Some (truthy (ImageState.original (imageState Examples.state))))
    as Himage by (eexists; reflexivity).
  destruct (processTranslation_success Examples.state [] Himage)
    as [Hanns [Hoffsets [_ [Herror [_ Hdownload]]]]].
  cbn zeta. repeat apply conj.
  - exact Hanns.
  - exact Hoffsets.
  - exact Herror.
  - exact (Hdownload Examples.browser eq_refl eq_refl).
Defined.

(** ** Studio edits *)

(** X10. An edit run, whatever its outcome, never touches the
    annotations, the stored offsets, the original image, the mode or the
    prompt. *)
Theorem processEdit_frame (edit : Edit) (s : AppState) :
  let s' := exec (processEdit edit) s in
  ImageState.annotations (imageState s') = ImageState.annotations (imageState s)
  /\ labelOffsets s' = labelOffsets s
  /\ ImageState.original (imageState s') = ImageState.original (imageState s)
  /\ mode s' = mode s
  /\ editPrompt s' = editPrompt s.
Proof.
  cbn zeta. unfold exec, processEdit, mbind, Handler_bind, getState. cbn.
  destruct (truthy _); [| by cbn].
  destruct (JsString.trim _); [by cbn |].
  destruct edit; by cbn.
Qed.

(** X11. With an image loaded and a prompt that is not blank, a
    successful edit stores the returned image as a JPEG data URL, clears
    the error and the loading flag, and a download in studio mode then
    delivers that edited image. *)
Theorem processEdit_success (env : Browser) (s : AppState) (newImageRaw : string) :
  is_Some (truthy (ImageState.original (imageState s))) ->
  JsString.trim (editPrompt s) <> [] ->
  let s' := exec (processEdit (EditReturns newImageRaw)) s in
  ImageState.processed (imageState s')
  = Some ("data:image/jpeg;base64," +:+ newImageRaw)
  /\ error s' = None
  /\ loading s' = false
  /\ (mode s = EDIT ->
      result (handleDownload env) s'
      = Clicked (DataUrl ("data:image/jpeg;base64," +:+ newImageRaw))).
Proof.
  intros [url Hurl] Hprompt. cbn zeta.
  assert (exec (processEdit (EditReturns newImageRaw)) s
          = {| mode := mode s; loading := false; error := None;
               imageState :=
                 withProcessed (imageState s)
                   ("data:image/jpeg;base64," +:+ newImageRaw);
               labelOffsets := labelOffsets s; editPrompt := editPrompt s |})
    as Hexec.
  { unfold exec, processEdit, mbind, Handler_bind, getState. cbn.
    rewrite Hurl. destruct (JsString.trim (editPrompt s)); [done | reflexivity]. }
  rewrite Hexec. repeat apply conj; try reflexivity.
  intros Hmode.
  unfold result, handleDownload, mbind, Handler_bind, getState.
  cbn [fst mode imageState withProcessed ImageState.original
       ImageState.processed].
  rewrite Hurl, Hmode, truthy_data_url. reflexivity.
Qed.

Lemma processEdit_success_witness :
  let s :=
    exec (setMode EDIT)
      (exec (setEditPrompt (JsString.of_ascii " make it a sketch "))
         Examples.state) in
  result (handleDownload Examples.browser) s
  = Clicked (DataUrl "data:image/png;base64,iVBORw0KGgo=")
  /\ result (handleDownload Examples.browser)
       (exec (processEdit (EditReturns "/9j/4AAQ")) s)
     = Clicked (DataUrl "data:image/jpeg;base64,/9j/4AAQ").
Proof.
  cbn zeta.
  set (s := exec (setMode EDIT)
              (exec (setEditPrompt (JsString.of_ascii " make it a sketch "))
                 Examples.state)).
  assert (is_Some (truthy (ImageState.original (imageState s)))) as Himage
    by (eexists; reflexivity).
  assert (JsString.trim (editPrompt s) <> []) as Hprompt
    by (vm_compute; discriminate).
  destruct (processEdit_success Examples.browser s "/9j/4AAQ" Himage Hprompt)
    as [_ [_ [_ Hdownload]]].
  split; [reflexivity | exact (Hdownload eq_refl)].
Defined.

(** X12. An edit that fails, and an edit asked for with a blank prompt,
    leave the image state as it was: a failure only raises the error
    banner and ends with the loading flag off, a blank prompt starts
    nothing at all. *)
Theorem processEdit_keeps_image (s : AppState) :
  (imageState (exec (processEdit EditThrows) s) = imageState s
   /\ (is_Some (truthy (ImageState.original (imageState s))) ->
       JsString.trim (editPrompt s) <> [] ->
       error (exec (processEdit EditThrows) s)
       = Some "Failed to edit image. The model might not support this request."
       /\ loading (exec (processEdit EditThrows) s) = false))
  /\ (JsString.trim (editPrompt s) = [] ->
      forall edit, exec (processEdit edit) s = s).
Proof.
  unfold exec, processEdit, mbind, Handler_bind, getState. cbn.
  repeat apply conj.
  - destruct (truthy _); [| by cbn]. destruct (JsString.trim _); by cbn.
  - intros [url Hurl] Hprompt. rewrite Hurl.
    destruct (JsString.trim _); [done | by cbn].
  - intros Hblank edit. rewrite Hblank. by destruct (truthy _).
Qed.

(** ** Guards *)

(** X13. Without an image none of the three actions runs: a translation
    run and an edit run leave the whole state as it is, stored offsets
    included, and a download starts nothing. *)
Theorem nothing_runs_without_image
    (env : Browser) (s : AppState) (detection : Detection) (edit : Edit) :
  truthy (ImageState.original (imageState s)) = None ->
  exec (processTranslation detection) s = s
  /\ exec (processEdit edit) s = s
  /\ result (handleDownload env) s = NotStarted.
Proof.
  intros Hnone. repeat apply conj.
  - by apply processTranslation_no_image.
  - unfold exec, processEdit, mbind, Handler_bind, getState. cbn.
    by rewrite Hnone.
  - unfold result, handleDownload, mbind, Handler_bind, getState. cbn.
    by rewrite Hnone.
Qed.

Lemma nothing_runs_without_image_witness :
  let s := exec handleReset Examples.state in
  exec (processTranslation (Returns [Examples.hello])) s = s
  /\ exec (processEdit (EditReturns "/9j/4AAQ")) s = s
  /\ result (handleDownload Examples.browser) s = NotStarted.
Proof.
  assert (truthy (ImageState.original
                    (imageState (exec handleReset Examples.state))) = None)
    as Hnone by reflexivity.
  exact (nothing_runs_without_image Examples.browser _
           (Returns [Examples.hello]) (EditReturns "/9j/4AAQ") Hnone).
Defined.

(** ** New image and reset *)

(** X14. Selecting an image always stores a non-empty data URL as the
    original, whatever the two strings are, with no processed image, no
    annotations, no stored offsets and no error; mode, loading flag and
    prompt are kept.  A download right afterwards: in studio mode it
    delivers the data URL itself; in translate mode, once the browser
    has loaded the image, it is the base image with no canvas call on it
    when a 2D context is available, and no download starts when none
    is. *)
Theorem handleImageSelect_fresh
    (env : Browser) (s : AppState) (base64 type : string) :
  let url := "data:" +:+ type +:+ ";base64," +:+ base64 in
  let s' := exec (handleImageSelect base64 type) s in
  imageState s' = ImageState.mk (Some url) None [] 0 0
  /\ truthy (ImageState.original (imageState s')) = Some url
  /\ labelOffsets s' = ∅
  /\ error s' = None
  /\ (mode s', loading s', editPrompt s') = (mode s, loading s, editPrompt s)
  /\ result (handleDownload env) s'
     = match mode s with
       | EDIT => Clicked (DataUrl url)
       | TRANSLATE =>
           if has2dContext env
           then Clicked (Composite (naturalWidth env) (naturalHeight env) [])
           else NotStarted
       end.
Proof.
  cbn zeta. repeat apply conj; try reflexivity.
  assert (exec (handleImageSelect base64 type) s
          = {| mode := mode s; loading := loading s; error := None;
               imageState :=
                 ImageState.mk
                   (Some ("data:" +:+ type +:+ ";base64," +:+ base64))
                   None [] 0 0;
               labelOffsets := ∅; editPrompt := editPrompt s |}) as Hexec
    by reflexivity.
  rewrite Hexec.
  unfold result, handleDownload, mbind, Handler_bind, getState.
  cbn [fst mode imageState labelOffsets ImageState.original
       ImageState.processed ImageState.annotations].
  rewrite truthy_data_url.
  destruct (mode s); [| reflexivity].
  destruct (has2dContext env); reflexivity.
Qed.

(** X15. After a reset there is no image, no annotation, no stored
    offset, no prompt and no error; a second reset changes nothing, and
    no translation, edit or download runs until an image is selected. *)
Theorem handleReset_clears
    (env : Browser) (s : AppState) (detection : Detection) (edit : Edit) :
  let s' := exec handleReset s in
  imageState s' = ImageState.mk None None [] 0 0
  /\ labelOffsets s' = ∅
  /\ editPrompt s' = []
  /\ error s' = None
  /\ (mode s', loading s') = (mode s, loading s)
  /\ exec handleReset s' = s'
  /\ exec (processTranslation detection) s' = s'
  /\ exec (processEdit edit) s' = s'
  /\ result (handleDownload env) s' = NotStarted.
Proof.
  cbn zeta. repeat apply conj; reflexivity.
Qed.

(** ** Label metrics *)

Lemma fontSize_cases (W : Q) :
  (W <= 640 /\ fontSize W == 16)
  \/ (640 <= W /\ W <= 1280 /\ fontSize W == W * (25 # 1000))
  \/ (1280 <= W /\ fontSize W == 32).
Proof.
  unfold fontSize.
  destruct (Q.min_spec (W * (25 # 1000)) 32) as [[Hlt Hmin] | [Hle Hmin]];
    destruct (Q.max_spec 16 (Qmin (W * (25 # 1000)) 32))
      as [[Hlt' Hmax] | [Hle' Hmax]];
    rewrite Hmax; rewrite Hmin in *.
  - right. left. repeat split; lra.
  - left. split; [lra | reflexivity].
  - right. right. split; [lra | reflexivity].
  - lra.
Qed.

(** X16. The label font follows the canvas width between two stops: 16
    px up to a width of 640, one fortieth of the width up to 1280, 32 px
    beyond.  The label is 1.6 times the font high, so between 25.6 and
    51.2 px, it is wider than its text by more than 29 px, and the
    outline is at least 2 px thick. *)
Theorem label_metrics (W textWidth : Q) :
  (16 <= fontSize W /\ fontSize W <= 32)
  /\ (W <= 640 -> fontSize W == 16)
  /\ (640 <= W -> W <= 1280 -> fontSize W == W / 40)
  /\ (1280 <= W -> fontSize W == 32)
  /\ boxHeight W == fontSize W * (16 # 10)
  /\ ((128 # 5) <= boxHeight W /\ boxHeight W <= (256 # 5))
  /\ textWidth + (146 # 5) <= boxWidth W textWidth
  /\ 2 <= lineWidth W.
Proof.
  pose proof (fontSize_ge_16 W) as Hlo.
  pose proof (fontSize_le_32 W) as Hhi.
  assert (boxHeight W == fontSize W * (16 # 10)) as Hheight
    by (unfold boxHeight, padding; ring).
  repeat apply conj; try assumption.
  - intros Hsmall.
    destruct (fontSize_cases W) as [[_ Hf] | [[Hge [_ Hf]] | [Hge Hf]]];
      rewrite Hf; lra.
  - intros Hge Hle.
    destruct (fontSize_cases W) as [[Hle' Hf] | [[_ [_ Hf]] | [Hge' Hf]]];
      rewrite Hf; unfold Qdiv; change (/ 40) with (1 # 40); lra.
  - intros Hlarge.
    destruct (fontSize_cases W) as [[Hle Hf] | [[_ [Hle Hf]] | [_ Hf]]];
      rewrite Hf; lra.
  - rewrite Hheight. lra.
  - rewrite Hheight. lra.
  - unfold boxWidth, padding. lra.
  - unfold lineWidth. apply Q.le_max_l.
Qed.

(** X17. For a drawn annotation the export makes exactly three canvas
    calls, and the text sits inside its background: it starts right of
    the background's left edge, its measured width ends left of the
    background's right edge, its baseline is the background's vertical
    middle, and it is measured and drawn at the same font size. *)
Theorem label_text_inside_background
    (measure : Q -> JsString.t -> Q) (W H : Q)
    (offsets : gmap nat Offset.t) (ann : Annotation.t) (i : nat) :
  isIdentical ann = false ->
  exists outline background anchor,
    drawAnnotation measure W H offsets ann i
    = [ StrokeRect AccentBlue (lineWidth W) outline;
        FillRect DarkSlate background;
        FillText White (fontSize W) (Annotation.translation ann) anchor ]
    /\ Rect.x background < Point.x anchor
    /\ Point.x anchor + measure (fontSize W) (Annotation.translation ann)
       < Rect.x background + Rect.w background
    /\ Point.y anchor == Rect.y background + Rect.h background / 2
    /\ Rect.y background < Point.y anchor
    /\ Point.y anchor < Rect.y background + Rect.h background.
Proof.
  intros Hid. unfold drawAnnotation. rewrite Hid.
  eexists _, _, _. split; [reflexivity |].
  pose proof (fontSize_ge_16 W) as Hfont.
  pose proof (boxHeight_pos W) as Hheight.
  cbn [Rect.x Rect.y Rect.w Rect.h Point.x Point.y].
  unfold labelWidthOf, boxWidth, padding.
  repeat apply conj; try reflexivity; qconst; lra.
Qed.

Lemma label_text_inside_background_witness :
  exists outline background anchor,
    drawAnnotation Examples.measure 1000 1000 ∅ Examples.hello 0
    = [ StrokeRect AccentBlue (lineWidth 1000) outline;
        FillRect DarkSlate background;
        FillText White (fontSize 1000) [20320; 22909]%N anchor ]
    /\ Rect.x background < Point.x anchor
    /\ Point.x anchor + 30 < Rect.x background + Rect.w background.
Proof.
  assert (isIdentical Examples.hello = false) as Hid by (vm_compute; reflexivity).
  destruct (label_text_inside_background Examples.measure 1000 1000 ∅
              Examples.hello 0 Hid)
    as [outline [background [anchor [Hops [Hleft [Hright _]]]]]].
  exists outline, background, anchor. repeat apply conj.
  - exact Hops.
  - exact Hleft.
  - assert (Examples.measure (fontSize 1000) [20320; 22909]%N == 30) as Hm
      by reflexivity.
    cbn [Annotation.translation Examples.hello] in Hright.
    rewrite Hm in Hright. exact Hright.
Defined.

(** X18. For a valid box on a canvas of positive size the default label
    keeps to the canvas on the side the placement rule looks at: a
    left-aligned label starts at or right of the left border, a
    right-aligned label ends at or left of the right border, a label put
    above a box near the bottom ends above the bottom border, and a
    label put below its box ends above the bottom border whenever the
    canvas is at least 368 px high. *)
Theorem default_label_within_canvas
    (ymin xmin ymax xmax W H labelWidth labelHeight : Q) :
  validBox (ymin, xmin, ymax, xmax) -> 0 < W -> 0 < H ->
  let b := (ymin, xmin, ymax, xmax) in
  let origin height :=
    defaultLabelOrigin b (toPixelRect b W H) labelWidth height in
  (xmin < 100 -> 0 <= Point.x (origin labelHeight))
  /\ (100 <= xmin -> 900 < xmax -> Point.x (origin labelHeight) + labelWidth <= W)
  /\ (850 < ymax -> Point.y (origin labelHeight) + labelHeight < H)
  /\ (ymax <= 850 -> 368 <= H -> forall W',
        Point.y (origin (boxHeight W')) + boxHeight W' <= H).
Proof.
  intros [[Hy0 [Hy Hy1]] [Hx0 [Hx Hx1]]] HW HH. cbn zeta.
  pose proof (scale_nonneg xmin W Hx0 HW) as Hleft.
  pose proof (scale_le_canvas xmax W Hx1 HW) as Hright.
  pose proof (scale_le_canvas ymin H ltac:(lra) HH) as Htop.
  unfold defaultLabelOrigin, toPixelRect.
  cbn [Rect.x Rect.y Rect.w Rect.h].
  repeat apply conj.
  - intros Hnear. apply Qltb_lt in Hnear. rewrite Hnear. exact Hleft.
  - intros Hfar Hnear. apply Qltb_ge in Hfar. apply Qltb_lt in Hnear.
    rewrite Hfar, Hnear. cbn [Point.x]. qconst. lra.
  - intros Hnear. apply Qltb_lt in Hnear. rewrite Hnear. cbn [Point.y].
    qconst. lra.
  - intros Hfar Hhigh W'. pose proof Hfar as Hfar'.
    apply Qltb_ge in Hfar'. rewrite Hfar'. cbn [Point.y].
    assert (boxHeight W' <= (256 # 5)) as Hbox.
    { unfold boxHeight, padding. pose proof (fontSize_le_32 W'). lra. }
    assert (0 <= (850 - ymax) / 1000 * H) as Hroom
      by (apply scale_nonneg; lra).
    qconst. lra.
Qed.

Lemma default_label_within_canvas_witness :
  let b := (100, 50, 200, 300) in
  let origin := defaultLabelOrigin b (toPixelRect b 1000 1000) 120 (boxHeight 1000) in
  0 <= Point.x origin /\ Point.y origin + boxHeight 1000 <= 1000.
Proof.
  assert (validBox (100, 50, 200, 300)) as Hbox
    by (unfold validBox; repeat split; lra).
  assert (0 < 1000) as Hpos by lra.
  assert (50 < 100) as Hleft by lra.
  assert (200 <= 850) as Hmid by lra.
  assert (368 <= 1000) as Hhigh by lra.
  destruct (default_label_within_canvas 100 50 200 300 1000 1000 120
              (boxHeight 1000) Hbox Hpos Hpos) as [Hx [_ [_ Hy]]].
  split; [exact (Hx Hleft) | exact (Hy Hmid Hhigh 1000)].
Defined.

(** ** White space and the skip rule *)

Lemma trimStart_app (s t : JsString.t) :
  JsString.trimStart (s ++ t)
  = match JsString.trimStart s with
    | [] => JsString.trimStart t
    | r => r ++ t
    end.
Proof.
  induction s as [| c s IH]; [reflexivity |].
  cbn. destruct (JsString.isWhiteSpace c); [exact IH | reflexivity].
Qed.

Lemma trimStart_blank (ws : JsString.t) :
  Forall (fun c => JsString.isWhiteSpace c = true) ws ->
  JsString.trimStart ws = [].
Proof.
  induction 1 as [| c ws Hc _ IH]; [reflexivity |]. cbn. by rewrite Hc.
Qed.

Lemma trimEnd_app_blank (s ws : JsString.t) :
  Forall (fun c => JsString.isWhiteSpace c = true) ws ->
  JsString.trimEnd (s ++ ws) = JsString.trimEnd s.
Proof.
  intros Hws. unfold JsString.trimEnd. rewrite rev_app_distr, trimStart_app.
  rewrite trimStart_blank; [reflexivity |].
  by apply List.Forall_rev.
Qed.

Lemma trim_padding (ws1 s ws2 : JsString.t) :
  Forall (fun c => JsString.isWhiteSpace c = true) ws1 ->
  Forall (fun c => JsString.isWhiteSpace c = true) ws2 ->
  JsString.trim (ws1 ++ s ++ ws2) = JsString.trim s.
Proof.
  intros H1 H2. unfold JsString.trim.
  rewrite trimStart_app, (trimStart_blank _ H1), trimStart_app.
  destruct (JsString.trimStart s) as [| c r].
  - by rewrite (trimStart_blank _ H2).
  - by apply trimEnd_app_blank.
Qed.

(** X19. White space around either text plays no part in the skip rule:
    padding the original or the translation with blanks, tabs, line
    breaks or other white space does not change whether the annotation
    is drawn; in particular a translation that is the original with such
    padding is never drawn. *)
Theorem skip_rule_ignores_padding
    (original translation a1 a2 b1 b2 : JsString.t) (box : Box) :
  Forall (fun c => JsString.isWhiteSpace c = true) (a1 ++ a2 ++ b1 ++ b2) ->
  isIdentical (Annotation.mk (a1 ++ original ++ a2) (b1 ++ translation ++ b2) box)
  = isIdentical (Annotation.mk original translation box)
  /\ forall measure W H offsets i,
       drawAnnotation measure W H offsets
         (Annotation.mk original (b1 ++ original ++ b2) box) i = [].
Proof.
  intros Hws.
  apply Forall_app in Hws as [Ha1 Hws].
  apply Forall_app in Hws as [Ha2 Hws].
  apply Forall_app in Hws as [Hb1 Hb2].
  split.
  - unfold isIdentical. cbn [Annotation.original Annotation.translation].
    by rewrite (trim_padding a1 original a2 Ha1 Ha2),
      (trim_padding b1 translation b2 Hb1 Hb2).
  - intros measure W H offsets i. apply drawAnnotation_identical.
    unfold isIdentical. cbn [Annotation.original Annotation.translation].
    rewrite (trim_padding b1 original b2 Hb1 Hb2). by apply bool_decide_eq_true.
Qed.

Lemma skip_rule_ignores_padding_witness :
  isIdentical Examples.year = true
  /\ drawAnnotation Examples.measure 1000 1000 ∅
       (Annotation.mk (JsString.of_ascii "2024")
          ([32; 12288]%N ++ JsString.of_ascii "2024" ++ [9; 10]%N)
          (300, 400, 350, 500)) 1 = [].
Proof.
  assert (Forall (fun c => JsString.isWhiteSpace c = true)
            ([] ++ [] ++ [32; 12288]%N ++ [9; 10]%N)) as Hws
    by (repeat constructor).
  destruct (skip_rule_ignores_padding (JsString.of_ascii "2024")
              (JsString.of_ascii "2024") [] [] [32; 12288]%N [9; 10]%N
              (300, 400, 350, 500) Hws) as [_ Hdraw].
  split; [vm_compute; reflexivity |].
  exact (Hdraw Examples.measure 1000 1000 ∅ 1%nat).
Defined.

(** ** Data URLs *)

Lemma of_ascii_app (a b : string) :
  JsString.of_ascii (a +:+ b) = JsString.of_ascii a ++ JsString.of_ascii b.
Proof.
  unfold JsString.of_ascii. induction a as [| c a IH]; [reflexivity |].
  change (String c a +:+ b) with (String c (a +:+ b)).
  cbn. f_equal. exact IH.
Qed.

Lemma stripPrefix_app (lit rest : JsString.t) :
  DataUrl.stripPrefix lit (lit ++ rest) = Some rest.
Proof.
  induction lit as [| c lit IH]; [reflexivity |].
  cbn. by rewrite N.eqb_refl.
Qed.

Lemma stripPrefix_other_head (c d : N) (lit s : JsString.t) :
  d <> c -> DataUrl.stripPrefix (c :: lit) (d :: s) = None.
Proof.
  intros Hne. cbn. destruct (N.eqb_spec c d) as [-> | _]; [done | reflexivity].
Qed.

Lemma dotStarThen_without_head (c : N) (lit s : JsString.t) :
  Forall (fun d => d <> c) s -> DataUrl.dotStarThen (c :: lit) s = None.
Proof.
  induction 1 as [| d s Hd _ IH]; [reflexivity |].
  cbn [DataUrl.dotStarThen]. rewrite IH.
  rewrite (stripPrefix_other_head c d lit s Hd).
  by destruct (DataUrl.isLineTerminator d).
Qed.

Lemma dotStarThen_capture (c : N) (lit type rest : JsString.t) :
  Forall (fun d => DataUrl.isLineTerminator d = false) type ->
  Forall (fun d => d <> c) (lit ++ rest) ->
  DataUrl.dotStarThen (c :: lit) (type ++ (c :: lit) ++ rest) = Some type.
Proof.
  intros Htype Hrest. induction Htype as [| d type Hd _ IH].
  - cbn [app DataUrl.dotStarThen].
    rewrite (dotStarThen_without_head c lit _ Hrest).
    change (c :: lit ++ rest) with ((c :: lit) ++ rest).
    rewrite stripPrefix_app. by destruct (DataUrl.isLineTerminator c).
  - change ((d :: type) ++ (c :: lit) ++ rest)
      with (d :: (type ++ (c :: lit) ++ rest)).
    cbn [DataUrl.dotStarThen]. by rewrite Hd, IH.
Qed.

Lemma split_app_separator (sep : N) (s rest : JsString.t) :
  Forall (fun d => d <> sep) s ->
  DataUrl.split sep (s ++ sep :: rest) = s :: DataUrl.split sep rest.
Proof.
  induction 1 as [| d s Hd _ IH].
  - cbn. by rewrite N.eqb_refl.
  - cbn. rewrite IH. destruct (N.eqb_spec d sep); [done | reflexivity].
Qed.

Lemma split_without_separator (sep : N) (s : JsString.t) :
  Forall (fun d => d <> sep) s -> DataUrl.split sep s = [s].
Proof.
  induction 1 as [| d s Hd _ IH]; [reflexivity |].
  cbn. rewrite IH. destruct (N.eqb_spec d sep); [done | reflexivity].
Qed.

(** X20. [getMimeType] gives back the type a data URL was built from:
    for [data:<type>;base64,<payload>] it returns [<type>] when the type
    has no line break and the payload no semicolon (base64 text has
    none).  So for an image stored by [handleImageSelect] the mime type
    sent to the service is the type the image was selected with. *)
Theorem getMimeType_roundtrip :
  (forall type payload : JsString.t,
     Forall (fun c => DataUrl.isLineTerminator c = false) type ->
     Forall (fun c => c <> 59%N) payload ->
     DataUrl.getMimeType
       (JsString.of_ascii "data:" ++ type ++ JsString.of_ascii ";base64," ++ payload)
     = type)
  /\ (forall (s : AppState) (base64 type : string),
        Forall (fun c => DataUrl.isLineTerminator c = false)
          (JsString.of_ascii type) ->
        Forall (fun c => c <> 59%N) (JsString.of_ascii base64) ->
        exists url,
          ImageState.original (imageState (exec (handleImageSelect base64 type) s))
          = Some url
          /\ DataUrl.getMimeType (JsString.of_ascii url) = JsString.of_ascii type).
Proof.
  assert (forall type payload : JsString.t,
            Forall (fun c => DataUrl.isLineTerminator c = false) type ->
            Forall (fun c => c <> 59%N) payload ->
            DataUrl.getMimeType
              (JsString.of_ascii "data:" ++ type
                 ++ JsString.of_ascii ";base64," ++ payload)
            = type) as Hgeneral.
  { intros type payload Htype Hpayload. unfold DataUrl.getMimeType.
    rewrite stripPrefix_app.
    change (JsString.of_ascii ";base64,")
      with (59%N :: JsString.of_ascii "base64,").
    rewrite dotStarThen_capture; [reflexivity | exact Htype |].
    apply Forall_app. split; [| exact Hpayload].
    repeat constructor; discriminate. }
  split; [exact Hgeneral |].
  intros s base64 type Htype Hpayload. eexists. split; [reflexivity |].
  rewrite !of_ascii_app. by apply Hgeneral.
Qed.

(** X21. The payload taken from a data URL by splitting at commas is the
    payload it was built from, when neither the type nor the payload
    holds a comma; without any comma in the URL there is no payload.  So
    for an image stored by [handleImageSelect] the data sent to the
    service is the base64 text the image was selected with. *)
Theorem rawBase64_roundtrip :
  (forall type payload : JsString.t,
     Forall (fun c => c <> 44%N) type ->
     Forall (fun c => c <> 44%N) payload ->
     DataUrl.rawBase64
       (JsString.of_ascii "data:" ++ type ++ JsString.of_ascii ";base64," ++ payload)
     = Some payload)
  /\ (forall url : JsString.t,
        Forall (fun c => c <> 44%N) url -> DataUrl.rawBase64 url = None)
  /\ (forall (s : AppState) (base64 type : string),
        Forall (fun c => c <> 44%N) (JsString.of_ascii type) ->
        Forall (fun c => c <> 44%N) (JsString.of_ascii base64) ->
        exists url,
          ImageState.original (imageState (exec (handleImageSelect base64 type) s))
          = Some url
          /\ DataUrl.rawBase64 (JsString.of_ascii url)
             = Some (JsString.of_ascii base64)).
Proof.
  assert (forall type payload : JsString.t,
            Forall (fun c => c <> 44%N) type ->
            Forall (fun c => c <> 44%N) payload ->
            DataUrl.rawBase64
              (JsString.of_ascii "data:" ++ type
                 ++ JsString.of_ascii ";base64," ++ payload)
            = Some payload) as Hgeneral.
  { intros type payload Htype Hpayload. unfold DataUrl.rawBase64.
    change (JsString.of_ascii ";base64,")
      with (JsString.of_ascii ";base64" ++ [44%N]).
    replace (JsString.of_ascii "data:" ++ type
               ++ (JsString.of_ascii ";base64" ++ [44%N]) ++ payload)
      with ((JsString.of_ascii "data:" ++ type ++ JsString.of_ascii ";base64")
              ++ 44%N :: payload)
      by (rewrite <- !app_assoc; reflexivity).
    rewrite split_app_separator.
    - by rewrite (split_without_separator _ _ Hpayload).
    - repeat (apply Forall_app; split); try exact Htype;
        repeat constructor; discriminate. }
  split; [exact Hgeneral | split].
  - intros url Hurl. unfold DataUrl.rawBase64.
    by rewrite (split_without_separator _ _ Hurl).
  - intros s base64 type Htype Hpayload. eexists. split; [reflexivity |].
    rewrite !of_ascii_app. by apply Hgeneral.
Qed.

(** ** The Gemini service *)

Lemma firstImage_spec (ps : list GeminiService.Part) (image : string) :
  GeminiService.firstImage ps = Some image
  <-> exists k part,
        ps !! k = Some part
        /\ GeminiService.imageOf part = Some image
        /\ forall j p, (j < k)%nat -> ps !! j = Some p ->
             GeminiService.imageOf p = None.
Proof.
  induction ps as [| head ps IH].
  - split; [discriminate | intros [k [part [Hk _]]]; discriminate].
  - cbn [GeminiService.firstImage].
    destruct (GeminiService.imageOf head) as [found |] eqn:Hhead.
    + split.
      * intros [= ->]. exists 0%nat, head.
        repeat split; [exact Hhead | intros j p Hj; lia].
      * intros [[| k] [part [Hk [Himage Hbefore]]]].
        -- injection Hk as <-. congruence.
        -- specialize (Hbefore 0%nat head ltac:(lia) eq_refl). congruence.
    + rewrite IH. split.
      * intros [k [part [Hk [Himage Hbefore]]]]. exists (S k), part.
        repeat split; [exact Hk | exact Himage |].
        intros [| j] p Hj Hp.
        -- injection Hp as <-. exact Hhead.
        -- apply (Hbefore j p); [lia | exact Hp].
      * intros [[| k] [part [Hk [Himage Hbefore]]]].
        -- injection Hk as <-. congruence.
        -- exists k, part. repeat split; [exact Hk | exact Himage |].
           intros j p Hj Hp. apply (Hbefore (S j) p); [lia | exact Hp].
Qed.

(** X22. [editImageWithPrompt] returns an image exactly when the reply
    has a list of parts of which one carries non-empty inline data, and
    then it returns the data of the first such part; every other reply,
    like a failed request, ends in a throw.  What it returns is never
    the empty string. *)
Theorem editImageWithPrompt_first_image
    (generated : GeminiService.Generated) (image : string) :
  (GeminiService.editImageWithPrompt generated = EditReturns image
   <-> exists response ps k part,
         generated = GeminiService.ApiReturns response
         /\ GeminiService.parts response = Some ps
         /\ ps !! k = Some part
         /\ GeminiService.imageOf part = Some image
         /\ forall j p, (j < k)%nat -> ps !! j = Some p ->
              GeminiService.imageOf p = None)
  /\ (GeminiService.editImageWithPrompt generated = EditReturns image ->
      image <> "").
Proof.
  assert (GeminiService.editImageWithPrompt generated = EditReturns image
          <-> exists response ps,
                generated = GeminiService.ApiReturns response
                /\ GeminiService.parts response = Some ps
                /\ GeminiService.firstImage ps = Some image) as Hfirst.
  { destruct generated as [| response]; cbn.
    - split; [discriminate | intros [r [ps [? _]]]; discriminate].
    - destruct (GeminiService.parts response) as [ps |] eqn:Hparts.
      + destruct (GeminiService.firstImage ps) as [found |] eqn:Hfound.
        * split.
          -- intros [= ->]. by exists response, ps.
          -- intros [r [ps' [[= <-] [Hps Himage]]]]. congruence.
        * split; [discriminate |].
          intros [r [ps' [[= <-] [Hps Himage]]]]. congruence.
      + split; [discriminate |].
        intros [r [ps' [[= <-] [Hps _]]]]. congruence. }
  split.
  - rewrite Hfirst. split.
    + intros [response [ps [Hgen [Hparts Himage]]]].
      apply firstImage_spec in Himage as [k [part Hk]].
      by exists response, ps, k, part.
    + intros [response [ps [k [part [Hgen [Hparts Hk]]]]]].
      exists response, ps. repeat split; [exact Hgen | exact Hparts |].
      apply firstImage_spec. by exists k, part.
  - intros Hret. apply Hfirst in Hret as [response [ps [_ [_ Himage]]]].
    apply firstImage_spec in Himage as [k [part [_ [Himage _]]]].
    unfold GeminiService.imageOf in Himage.
    destruct (GeminiService.inlineData part) as [inline |]; [| discriminate].
    unfold truthy in Himage.
    destruct (GeminiService.data inline) as [d |]; [| discriminate].
    case_decide; [discriminate | congruence].
Qed.

(** X23. What a translation run makes of the service's reply, with an
    image loaded: a reply without text counts as nothing detected (empty
    list, "No English text detected" banner); a reply whose text parses
    replaces the list; a failed request and a text that does not parse
    both leave the image state as it was and raise the failure banner.
    In every case the stored offsets are gone and loading is off. *)
Theorem translation_reply_handling
    (parse : string -> option (list Annotation.t))
    (generated : GeminiService.Generated) (s : AppState) :
  is_Some (truthy (ImageState.original (imageState s))) ->
  let s' :=
    exec (processTranslation (GeminiService.translateImageText parse generated)) s in
  let failed :=
    imageState s' = imageState s
    /\ error s' = Some "Failed to process translation. Please try again." in
  labelOffsets s' = ∅
  /\ loading s' = false
  /\ match generated with
     | GeminiService.ApiThrows => failed
     | GeminiService.ApiReturns response =>
         match truthy (GeminiService.responseText response) with
         | None =>
             ImageState.annotations (imageState s') = []
             /\ error s' = Some "No English text detected to translate."
         | Some text =>
             match parse text with
             | None => failed
             | Some results =>
                 ImageState.annotations (imageState s') = Item <$> results
             end
         end
     end.
Proof.
  intros [url Hurl]. cbn zeta.
  unfold exec, processTranslation, mbind, Handler_bind, getState. cbn.
  rewrite Hurl.
  destruct generated as [| response]; cbn; [by repeat split |].
  destruct (truthy (GeminiService.responseText response)) as [text |];
    cbn; [| by repeat split].
  destruct (parse text) as [results |]; cbn; [| by repeat split].
  destruct results; by repeat split.
Qed.

Lemma translation_reply_handling_witness :
  let reply := GeminiService.ApiReturns (GeminiService.mkResponse (Some "") None) in
  let s' :=
    exec (processTranslation
            (GeminiService.translateImageText (fun _ => None) reply))
      Examples.state in
  labelOffsets s' = ∅
  /\ ImageState.annotations (imageState s') = []
  /\ error s' = Some "No English text detected to translate.".
Proof.
  assert (is_Some (truthy (ImageState.original (imageState Examples.state))))
    as Himage by (eexists; reflexivity).
  destruct (translation_reply_handling (fun _ => None)
              (GeminiService.ApiReturns (GeminiService.mkResponse (Some "") None))
              Examples.state Himage) as [Hoffsets [_ [Hanns Herror]]].
  cbn zeta. repeat apply conj; assumption.
Defined.

(** X24. A reply to an edit request that carries no image, whether it
    has text parts or no parts at all, never replaces the image: the
    image state after the edit run is the one before it. *)
Theorem edit_reply_without_image
    (response : GeminiService.Response) (s : AppState) :
  (forall ps, GeminiService.parts response = Some ps ->
     Forall (fun part => GeminiService.imageOf part = None) ps) ->
  GeminiService.editImageWithPrompt (GeminiService.ApiReturns response)
  = EditThrows
  /\ imageState
       (exec (processEdit
                (GeminiService.editImageWithPrompt
                   (GeminiService.ApiReturns response))) s)
     = imageState s.
Proof.
  intros Hnone.
  assert (GeminiService.editImageWithPrompt (GeminiService.ApiReturns response)
          = EditThrows) as Hthrows.
  { cbn. destruct (GeminiService.parts response) as [ps |]; [| reflexivity].
    specialize (Hnone ps eq_refl).
    induction Hnone as [| part ps Hpart _ IH]; [reflexivity |].
    cbn [GeminiService.firstImage]. by rewrite Hpart. }
  split; [exact Hthrows |]. rewrite Hthrows.
  unfold exec, processEdit, mbind, Handler_bind, getState. cbn.
  destruct (truthy _); [| by cbn]. destruct (JsString.trim _); by cbn.
Qed.

Lemma edit_reply_without_image_witness :
  let textOnly :=
    GeminiService.mkResponse (Some "Here is a description.")
      (Some [GeminiService.mkPart None (Some "Here is a description.");
             GeminiService.mkPart
               (Some (GeminiService.mkInlineData (Some "image/png") (Some "")))
               None]) in
  let s :=
    exec (setMode EDIT)
      (exec (setEditPrompt (JsString.of_ascii "sketch")) Examples.state) in
  imageState
    (exec (processEdit
             (GeminiService.editImageWithPrompt
                (GeminiService.ApiReturns textOnly))) s)
  = imageState s.
Proof.
  cbn zeta.
  refine (proj2 (edit_reply_without_image _ _ _)).
  intros ps [= <-]. repeat constructor.
Defined.

Lemma getMimeType_roundtrip_witness :
  DataUrl.getMimeType (JsString.of_ascii "data:image/png;base64,iVBORw0KGgo=")
  = JsString.of_ascii "image/png".
Proof.
  assert (Forall (fun c => DataUrl.isLineTerminator c = false)
            (JsString.of_ascii "image/png")) as Htype
    by (repeat constructor).
  assert (Forall (fun c => c <> 59%N) (JsString.of_ascii "iVBORw0KGgo="))
    as Hpayload by (repeat constructor; discriminate).
  exact (proj1 getMimeType_roundtrip _ _ Htype Hpayload).
Defined.

Lemma rawBase64_roundtrip_witness :
  DataUrl.rawBase64 (JsString.of_ascii "data:image/png;base64,iVBORw0KGgo=")
  = Some (JsString.of_ascii "iVBORw0KGgo=")
  /\ DataUrl.rawBase64 (JsString.of_ascii "data:image/png") = None.
Proof.
  assert (Forall (fun c => c <> 44%N) (JsString.of_ascii "image/png")) as Htype
    by (repeat constructor; discriminate).
  assert (Forall (fun c => c <> 44%N) (JsString.of_ascii "iVBORw0KGgo="))
    as Hpayload by (repeat constructor; discriminate).
  assert (Forall (fun c => c <> 44%N) (JsString.of_ascii "data:image/png"))
    as Hurl by (repeat constructor; discriminate).
  destruct rawBase64_roundtrip as [Hpayload' [Hnone _]].
  split; [exact (Hpayload' _ _ Htype Hpayload) | exact (Hnone _ Hurl)].
Defined.
